(** * claude-max-api-proxy: session store, turn-aware streaming, progress reporter

    A shallow embedding of the JavaScript sources

    - [dist/session/manager.js]       (module [Session])
    - [dist/types/claude-cli.js]      (module [Cli])
    - [dist/adapter/cli-to-openai.js] (module [Adapter])
    - [dist/server/routes.js]         (modules [Progress], [Streaming],
                                       [NonStreaming], [Routes])

    Objects become records, the [Map] of sessions a [gmap], every
    [Date.now()] and [uuidv4()] read an explicit argument, and every
    effect on the outside world (file writes, HTTP writes, Telegram calls)
    an entry appended to a log kept in the state.  A listener runs to
    completion before the next event is handled; the clock is read once
    per listener invocation.  [await] points split a method in two: the
    part that runs at the call, and the part that runs when the awaited
    call resolves, which is an event of its own. *)

From Stdlib Require Import ZArith Lia Ascii String.
From stdpp Require Import base option list strings pretty gmap fin_maps.

Local Open Scope Z_scope.

(** ** JavaScript helpers *)

(** Truthiness of a string-or-undefined value: [undefined], [null] and the
    empty string are falsy. *)
Definition truthy_str (s : option string) : bool :=
  match s with
  | Some EmptyString => false
  | Some _ => true
  | None => false
  end.

(** Truthiness of a number-or-null value: [null], [undefined] and [0] are
    falsy. *)
Definition truthy_num (n : option Z) : bool :=
  match n with
  | Some n => negb (n =? 0)
  | None => false
  end.

(** [n || 0] on a number-or-undefined value. *)
Definition or_zero (n : option Z) : Z := default 0 n.

(** [hay.includes(needle)]. *)
Fixpoint includes (needle hay : string) : bool :=
  String.prefix needle hay ||
  match hay with
  | EmptyString => false
  | String _ rest => includes needle rest
  end.

(** ** dist/session/manager.js *)

Module Session.

Record SessionMapping := {
  conversationId : string;
  claudeSessionId : string;
  createdAt : Z;
  lastUsedAt : Z;
  model : string;
  messageCount : option Z;   (* set by the request handler only *)
}.

(** The manager: the in-memory map, the [loaded] flag, and the log of the
    documents handed to [fs.writeFile] (oldest first).  [save] serialises
    the map synchronously, before its first [await], so each log entry is
    the map as it was when [save] was called. *)
Record SessionManager := {
  sessions : gmap string SessionMapping;
  loaded : bool;
  written : list (gmap string SessionMapping);
}.

Definition SESSION_TTL_MS : Z := 24 * 60 * 60 * 1000.

Definition empty : SessionManager :=
  {| sessions := ∅; loaded := false; written := [] |}.

Definition with_sessions (m : gmap string SessionMapping) (s : SessionManager)
  : SessionManager :=
  {| sessions := m; loaded := loaded s; written := written s |}.

(** [load]: [disk] is the parsed session file, [None] when the file is
    missing or invalid. *)
Definition load (disk : option (gmap string SessionMapping)) (s : SessionManager)
  : SessionManager :=
  if loaded s then s
  else {| sessions := default ∅ disk; loaded := true; written := written s |}.

Definition save (s : SessionManager) : SessionManager :=
  {| sessions := sessions s; loaded := loaded s;
     written := written s ++ [sessions s] |}.

Definition touch (now : Z) (mdl : string) (e : SessionMapping) : SessionMapping :=
  {| conversationId := conversationId e;
     claudeSessionId := claudeSessionId e;
     createdAt := createdAt e;
     lastUsedAt := now;
     model := mdl;
     messageCount := messageCount e |}.

(** [getOrCreate(conversationId, model = "sonnet")].  [now] is the value
    of [Date.now()] and [uuid] the value [uuidv4()] would return. *)
Definition getOrCreate (cid : string) (mdl : option string) (now : Z)
    (uuid : string) (s : SessionManager) : string * SessionManager :=
  let mdl := default "sonnet"%string mdl in
  match sessions s !! cid with
  | Some existing =>
      (claudeSessionId existing,
       with_sessions (<[cid := touch now mdl existing]> (sessions s)) s)
  | None =>
      let mapping :=
        {| conversationId := cid; claudeSessionId := uuid;
           createdAt := now; lastUsedAt := now;
           model := mdl; messageCount := None |} in
      (uuid, save (with_sessions (<[cid := mapping]> (sessions s)) s))
  end.

Definition get (cid : string) (s : SessionManager) : option SessionMapping :=
  sessions s !! cid.

Definition delete (cid : string) (s : SessionManager) : bool * SessionManager :=
  match sessions s !! cid with
  | Some _ => (true, save (with_sessions (base.delete cid (sessions s)) s))
  | None => (false, s)
  end.

(** The body of the [for ... of this.sessions] loop of [cleanup], on the
    pair (map, removed). *)
Definition cleanup_visit (cutoff : Z) (key : string) (session : SessionMapping)
    (acc : gmap string SessionMapping * Z) : gmap string SessionMapping * Z :=
  if lastUsedAt session <? cutoff
  then (base.delete key acc.1, acc.2 + 1)
  else acc.

Definition cleanup (now : Z) (s : SessionManager) : Z * SessionManager :=
  let cutoff := now - SESSION_TTL_MS in
  let '(m, removed) :=
    map_fold (cleanup_visit cutoff) (sessions s, 0) (sessions s) in
  if 0 <? removed
  then (removed, save (with_sessions m s))
  else (removed, with_sessions m s).

End Session.

(** ** dist/types/claude-cli.js: the messages of the CLI's JSON stream *)

Module Cli.

Record ContentBlock := {
  block_type : string;
  block_name : option string;
}.

Record Delta := { text : option string }.

(** The nested [event] object of a [stream_event] message. *)
Record StreamEvent := {
  event_type : string;
  content_block : option ContentBlock;
  delta : option Delta;
}.

Record ClaudeCliMessage := {
  msg_type : string;
  event : option StreamEvent;
}.

Record Usage := {
  input_tokens : option Z;
  output_tokens : option Z;
}.

(** A [result] message.  [modelUsage] is an object keyed by model name;
    only its keys, in insertion order, are read. *)
Record ClaudeCliResult := {
  result : string;
  usage : option Usage;
  modelUsage : option (list string);
}.

Definition isContentDelta (msg : ClaudeCliMessage) : bool :=
  bool_decide (msg_type msg = "stream_event"%string) &&
  match event msg with
  | Some ev => bool_decide (event_type ev = "content_block_delta"%string)
  | None => false
  end.

(** What a [ClaudeSubprocess] emits to its listeners. *)
Inductive SubprocessEvent :=
| on_message (msg : ClaudeCliMessage)
| on_content_delta (ev : StreamEvent)       (* [event.event] of the payload *)
| on_assistant (model : string)             (* [message.message.model] *)
| on_result (r : ClaudeCliResult)
| on_error (message : string)               (* [error.message] *)
| on_close (code : option Z)                (* [null] when killed by a signal *)
| on_resume_failed (errorText : string).

End Cli.

(** ** dist/adapter/cli-to-openai.js *)

Module Adapter.

Record ChunkDelta := {
  role : option string;
  content : option string;
}.

Record ChunkChoice := {
  index : Z;
  delta : ChunkDelta;
  finish_reason : option string;
}.

Record OpenAIChatChunk := {
  id : string;
  object : string;
  created : Z;
  model : string;
  choices : list ChunkChoice;
}.

Record ResponseMessage := {
  msg_role : string;
  msg_content : string;
}.

Record ResponseUsage := {
  prompt_tokens : Z;
  completion_tokens : Z;
  total_tokens : Z;
}.

Record OpenAIChatResponse := {
  resp_id : string;
  resp_object : string;
  resp_created : Z;
  resp_model : string;
  resp_message : ResponseMessage;      (* [choices[0].message] *)
  resp_finish_reason : string;         (* [choices[0].finish_reason] *)
  resp_usage : ResponseUsage;
}.

Definition normalizeModelName (model : option string) : string :=
  match model with
  | None => "claude-sonnet-4"
  | Some m =>
      if negb (truthy_str model) then "claude-sonnet-4"
      else if includes "opus" m then "claude-opus-4"
      else if includes "sonnet" m then "claude-sonnet-4"
      else if includes "haiku" m then "claude-haiku-4"
      else m
  end%string.

(** [Math.floor(Date.now() / 1000)] *)
Definition seconds (now : Z) : Z := now / 1000.

Definition createDoneChunk (requestId : string) (model : option string) (now : Z)
  : OpenAIChatChunk :=
  {| id := "chatcmpl-" +:+ requestId;
     object := "chat.completion.chunk";
     created := seconds now;
     model := normalizeModelName model;
     choices := [ {| index := 0;
                     delta := {| role := None; content := None |};
                     finish_reason := Some "stop"%string |} ] |}.

Definition cliResultToOpenai (r : Cli.ClaudeCliResult) (requestId : string) (now : Z)
  : OpenAIChatResponse :=
  let modelName :=
    match Cli.modelUsage r with
    | Some keys => head keys
    | None => Some "claude-sonnet-4"%string
    end in
  let input := or_zero (Cli.usage r ≫= Cli.input_tokens) in
  let output := or_zero (Cli.usage r ≫= Cli.output_tokens) in
  {| resp_id := "chatcmpl-" +:+ requestId;
     resp_object := "chat.completion";
     resp_created := seconds now;
     resp_model := normalizeModelName modelName;
     resp_message := {| msg_role := "assistant"; msg_content := Cli.result r |};
     resp_finish_reason := "stop";
     resp_usage := {| prompt_tokens := input;
                      completion_tokens := output;
                      total_tokens := input + output |} |}.

End Adapter.

(** ** dist/server/routes.js: the Telegram progress reporter *)

Module Progress.

(** The [TOOL_LABELS] object literal, in source order. *)
Definition TOOL_LABELS : list (string * string) :=
  [ ("Bash",      "執行命令");
    ("Read",      "讀取檔案");
    ("Write",     "寫入檔案");
    ("Edit",      "編輯檔案");
    ("Grep",      "搜尋內容");
    ("Glob",      "搜尋檔案");
    ("WebSearch", "搜尋網頁");
    ("WebFetch",  "讀取網頁");
    ("TodoRead",  "讀取待辦");
    ("TodoWrite", "更新待辦") ]%string.

(** [table[key]] on an object literal with string values: its own
    properties.  (The names every object inherits, such as "constructor",
    are not names of CLI tools.) *)
Fixpoint property (table : list (string * string)) (key : string) : option string :=
  match table with
  | [] => None
  | (k, v) :: rest => if String.eqb k key then Some v else property rest key
  end.

(** [TOOL_LABELS[toolName] || toolName] *)
Definition label_of (toolName : string) : string :=
  let l := property TOOL_LABELS toolName in
  if truthy_str l then default toolName l else toolName.

(** The calls made through [telegramApi(method, params)]. *)
Inductive ApiCall :=
| sendMessage (chat_id : option string) (text : string)
| editMessageText (chat_id : option string) (message_id : option Z) (text : string)
| deleteMessage (chat_id : option string) (message_id : option Z).

(** What [telegramApi] resolves to: [null], or the parsed response, of
    which [ok] and [result.message_id] are read. *)
Record ApiResponse := {
  ok : bool;
  result_message_id : option Z;
}.

(** The instance fields.  [throttleTimer] holds the time at which the
    armed [setTimeout] is due. *)
Record ProgressReporter := {
  chatId : option string;
  messageId : option Z;
  toolHistory : list string;
  lastUpdateAt : Z;
  pendingLabel : option string;
  throttleTimer : option Z;
  isDeleted : bool;
}.

Definition MIN_UPDATE_INTERVAL : Z := 3000.

Definition new (chatId : option string) : ProgressReporter :=
  {| chatId := chatId; messageId := None; toolHistory := [];
     lastUpdateAt := 0; pendingLabel := None; throttleTimer := None;
     isDeleted := false |}.

Definition set_messageId (v : option Z) (r : ProgressReporter) :=
  {| chatId := chatId r; messageId := v; toolHistory := toolHistory r;
     lastUpdateAt := lastUpdateAt r; pendingLabel := pendingLabel r;
     throttleTimer := throttleTimer r; isDeleted := isDeleted r |}.
Definition set_toolHistory (v : list string) (r : ProgressReporter) :=
  {| chatId := chatId r; messageId := messageId r; toolHistory := v;
     lastUpdateAt := lastUpdateAt r; pendingLabel := pendingLabel r;
     throttleTimer := throttleTimer r; isDeleted := isDeleted r |}.
Definition set_lastUpdateAt (v : Z) (r : ProgressReporter) :=
  {| chatId := chatId r; messageId := messageId r; toolHistory := toolHistory r;
     lastUpdateAt := v; pendingLabel := pendingLabel r;
     throttleTimer := throttleTimer r; isDeleted := isDeleted r |}.
Definition set_pendingLabel (v : option string) (r : ProgressReporter) :=
  {| chatId := chatId r; messageId := messageId r; toolHistory := toolHistory r;
     lastUpdateAt := lastUpdateAt r; pendingLabel := v;
     throttleTimer := throttleTimer r; isDeleted := isDeleted r |}.
Definition set_throttleTimer (v : option Z) (r : ProgressReporter) :=
  {| chatId := chatId r; messageId := messageId r; toolHistory := toolHistory r;
     lastUpdateAt := lastUpdateAt r; pendingLabel := pendingLabel r;
     throttleTimer := v; isDeleted := isDeleted r |}.
Definition set_isDeleted (v : bool) (r : ProgressReporter) :=
  {| chatId := chatId r; messageId := messageId r; toolHistory := toolHistory r;
     lastUpdateAt := lastUpdateAt r; pendingLabel := pendingLabel r;
     throttleTimer := throttleTimer r; isDeleted := v |}.

Definition newline : string := String "010"%char EmptyString.

Fixpoint join (sep : string) (parts : list string) : string :=
  match parts with
  | [] => ""
  | [p] => p
  | p :: rest => p +:+ sep +:+ join sep rest
  end%string.

Definition _buildText (r : ProgressReporter) : string :=
  match toolHistory r with
  | [] => "⏳ 處理中..."
  | _ =>
      join newline
        (imap (λ (i : nat) label,
                 if bool_decide (i = 0%nat) then "⏳ " +:+ label +:+ "..."
                 else "     " +:+ label +:+ "...")
              (toolHistory r))
  end%string.

(** [arr.slice(-n)] for [n > 0] *)
Definition slice_last {A} (n : nat) (l : list A) : list A :=
  drop (length l - n)%nat l.

(** The synchronous part of [_flush], up to the call of [telegramApi]:
    the new state and the call issued at time [now]. *)
Definition _flush (now : Z) (r : ProgressReporter)
  : ProgressReporter * list (Z * ApiCall) :=
  if isDeleted r then (r, [])
  else
    let r := set_pendingLabel None (set_lastUpdateAt now r) in
    let text := _buildText r in
    if negb (truthy_num (messageId r))
    then (r, [(now, sendMessage (chatId r) text)])
    else (r, [(now, editMessageText (chatId r) (messageId r) text)]).

(** The rest of [_flush] once [await telegramApi("sendMessage", ...)]
    resolves to [result]. *)
Definition sendMessage_resolved (result : option ApiResponse) (r : ProgressReporter)
  : ProgressReporter :=
  match result with
  | Some resp => if ok resp then set_messageId (result_message_id resp) r else r
  | None => r
  end.

Definition report (toolName : string) (now : Z) (r : ProgressReporter)
  : ProgressReporter * list (Z * ApiCall) :=
  if isDeleted r then (r, [])
  else if negb (truthy_str (chatId r)) then (r, [])
  else
    let label := label_of toolName in
    if bool_decide (last (toolHistory r) = Some label) then (r, [])
    else
      let r := set_toolHistory (toolHistory r ++ [label]) r in
      let r := if bool_decide (6 < length (toolHistory r))%nat
               then set_toolHistory (slice_last 6 (toolHistory r)) r else r in
      let elapsed := now - lastUpdateAt r in
      if MIN_UPDATE_INTERVAL <=? elapsed then _flush now r
      else
        let r := set_pendingLabel (Some label) r in
        match throttleTimer r with
        | None =>
            (set_throttleTimer (Some (now + (MIN_UPDATE_INTERVAL - elapsed))) r, [])
        | Some _ => (r, [])
        end.

(** The callback handed to [setTimeout] in [report]; it can only run
    while the timer it belongs to is still armed. *)
Definition timer_callback (now : Z) (r : ProgressReporter)
  : ProgressReporter * list (Z * ApiCall) :=
  match throttleTimer r with
  | None => (r, [])
  | Some _ =>
      let r := set_throttleTimer None r in
      if negb (isDeleted r) then _flush now r else (r, [])
  end.

Definition cleanup (now : Z) (r : ProgressReporter)
  : ProgressReporter * list (Z * ApiCall) :=
  let r := set_isDeleted true r in
  let r := match throttleTimer r with
           | Some _ => set_throttleTimer None r
           | None => r
           end in
  if truthy_num (messageId r) && truthy_str (chatId r)
  then (r, [(now, deleteMessage (chatId r) (messageId r))])
  else (r, []).

(** What can happen to one reporter: calls of its methods, the armed
    timer firing, and a pending [sendMessage] call resolving. *)
Inductive Event :=
| Report (toolName : string)
| TimerFired
| SendMessageResolved (result : option ApiResponse)
| Cleanup.

Definition step (now : Z) (e : Event) (r : ProgressReporter)
  : ProgressReporter * list (Z * ApiCall) :=
  match e with
  | Report toolName => report toolName now r
  | TimerFired => timer_callback now r
  | SendMessageResolved result => (sendMessage_resolved result r, [])
  | Cleanup => cleanup now r
  end.

(** A run: the events in order, each with the clock reading at which it
    is handled; the result is the final state and all calls issued. *)
Fixpoint run (evs : list (Z * Event)) (r : ProgressReporter)
  : ProgressReporter * list (Z * ApiCall) :=
  match evs with
  | [] => (r, [])
  | (now, e) :: rest =>
      let '(r1, c1) := step now e r in
      let '(r2, c2) := run rest r1 in
      (r2, c1 ++ c2)
  end.

Definition is_flush (c : Z * ApiCall) : bool :=
  match c.2 with
  | sendMessage _ _ | editMessageText _ _ _ => true
  | deleteMessage _ _ => false
  end.

Definition is_delete (c : Z * ApiCall) : bool :=
  match c.2 with
  | deleteMessage _ _ => true
  | _ => false
  end.

Definition flush_times (calls : list (Z * ApiCall)) : list Z :=
  fst <$> filter (λ c, is_flush c = true) calls.

Definition delete_count (calls : list (Z * ApiCall)) : nat :=
  length (filter (λ c, is_delete c = true) calls).

End Progress.

(** ** The events one request handler reacts to

    What the subprocess emits, the response stream closing, the two
    asynchronous events of the progress reporter (its timer firing, its
    [sendMessage] call resolving), and [subprocess.start] rejecting. *)

Inductive Event :=
| Sub (e : Cli.SubprocessEvent)
| ResClose
| ProgressTimer
| ProgressSent (result : option Progress.ApiResponse)
| StartRejected (message : string).

(** ** dist/server/routes.js: [handleStreamingResponse] *)

Module Streaming.

(** What is written to [res]. *)
Inductive SseWrite :=
| sse_ok                                   (* [":ok\n\n"] *)
| sse_chunk (c : Adapter.OpenAIChatChunk)  (* ["data: " + JSON.stringify(chunk)] *)
| sse_error (message : string)             (* [{error: {message, type: "server_error", code: null}}] *)
| sse_done.                                (* ["data: [DONE]\n\n"] *)

(** The request id and the environment of the process. *)
Record Env := {
  requestId : string;
  TELEGRAM_NOTIFY_ID : option string;
}.

(** The variables of the closure, the response object, and the effects
    on the outside world. *)
Record State := {
  lastModel : string;
  isComplete : bool;
  turnBuffer : list string;
  turnCount : Z;
  progress : Progress.ProgressReporter;
  written : list SseWrite;          (* [res.write], oldest first *)
  writableEnded : bool;             (* [res.end()] was called *)
  killed : bool;                    (* [subprocess.kill()] was called *)
  telegram : list (Z * Progress.ApiCall);
  notified : list string;           (* messages handed to [oc-tool] *)
}.

Definition set_lastModel v st :=
  {| lastModel := v; isComplete := isComplete st; turnBuffer := turnBuffer st;
     turnCount := turnCount st; progress := progress st; written := written st;
     writableEnded := writableEnded st; killed := killed st;
     telegram := telegram st; notified := notified st |}.
Definition set_isComplete v st :=
  {| lastModel := lastModel st; isComplete := v; turnBuffer := turnBuffer st;
     turnCount := turnCount st; progress := progress st; written := written st;
     writableEnded := writableEnded st; killed := killed st;
     telegram := telegram st; notified := notified st |}.
Definition set_turnBuffer v st :=
  {| lastModel := lastModel st; isComplete := isComplete st; turnBuffer := v;
     turnCount := turnCount st; progress := progress st; written := written st;
     writableEnded := writableEnded st; killed := killed st;
     telegram := telegram st; notified := notified st |}.
Definition set_turnCount v st :=
  {| lastModel := lastModel st; isComplete := isComplete st; turnBuffer := turnBuffer st;
     turnCount := v; progress := progress st; written := written st;
     writableEnded := writableEnded st; killed := killed st;
     telegram := telegram st; notified := notified st |}.
Definition set_killed v st :=
  {| lastModel := lastModel st; isComplete := isComplete st; turnBuffer := turnBuffer st;
     turnCount := turnCount st; progress := progress st; written := written st;
     writableEnded := writableEnded st; killed := v;
     telegram := telegram st; notified := notified st |}.
Definition set_notified v st :=
  {| lastModel := lastModel st; isComplete := isComplete st; turnBuffer := turnBuffer st;
     turnCount := turnCount st; progress := progress st; written := written st;
     writableEnded := writableEnded st; killed := killed st;
     telegram := telegram st; notified := v |}.

(** [res.write(w)] *)
Definition write (w : SseWrite) st :=
  {| lastModel := lastModel st; isComplete := isComplete st; turnBuffer := turnBuffer st;
     turnCount := turnCount st; progress := progress st; written := written st ++ [w];
     writableEnded := writableEnded st; killed := killed st;
     telegram := telegram st; notified := notified st |}.

(** [res.end()] *)
Definition end_response st :=
  {| lastModel := lastModel st; isComplete := isComplete st; turnBuffer := turnBuffer st;
     turnCount := turnCount st; progress := progress st; written := written st;
     writableEnded := true; killed := killed st;
     telegram := telegram st; notified := notified st |}.

(** Run a method of the reporter and record the Telegram calls it made. *)
Definition with_progress
    (f : Progress.ProgressReporter →
         Progress.ProgressReporter * list (Z * Progress.ApiCall)) st :=
  let '(p, calls) := f (progress st) in
  {| lastModel := lastModel st; isComplete := isComplete st; turnBuffer := turnBuffer st;
     turnCount := turnCount st; progress := p; written := written st;
     writableEnded := writableEnded st; killed := killed st;
     telegram := telegram st ++ calls; notified := notified st |}.

(** [notifyTelegram(message)] *)
Definition notifyTelegram (env : Env) (message : string) st :=
  if negb (truthy_str (TELEGRAM_NOTIFY_ID env)) then st
  else set_notified (notified st ++ [message]) st.

(** The state when the listeners are registered: headers flushed and the
    [":ok"] comment written. *)
Definition init (env : Env) : State :=
  {| lastModel := "claude-sonnet-4"; isComplete := false; turnBuffer := [];
     turnCount := 0;
     progress := Progress.new (if truthy_str (TELEGRAM_NOTIFY_ID env)
                               then TELEGRAM_NOTIFY_ID env else None);
     written := [sse_ok]; writableEnded := false; killed := false;
     telegram := []; notified := [] |}.

(** The chunk built in the loop of the [result] listener. *)
Definition content_chunk (env : Env) (now : Z) (lastModel : string)
    (isFirst : bool) (text : string) : Adapter.OpenAIChatChunk :=
  {| Adapter.id := "chatcmpl-" +:+ requestId env;
     Adapter.object := "chat.completion.chunk";
     Adapter.created := Adapter.seconds now;
     Adapter.model := lastModel;
     Adapter.choices :=
       [ {| Adapter.index := 0;
            Adapter.delta :=
              {| Adapter.role := if isFirst then Some "assistant"%string else None;
                 Adapter.content := Some text |};
            Adapter.finish_reason := None |} ] |}.

(** [for (const text of turnBuffer) { res.write(...); isFirst = false; }] *)
Fixpoint write_buffer (env : Env) (now : Z) (isFirst : bool) (buf : list string) st :=
  match buf with
  | [] => st
  | text :: rest =>
      write_buffer env now false rest
        (write (sse_chunk (content_chunk env now (lastModel st) isFirst text)) st)
  end.

Definition on_message (now : Z) (msg : Cli.ClaudeCliMessage) st :=
  if negb (bool_decide (Cli.msg_type msg = "stream_event"%string)) then st
  else
    let eventType := Cli.event_type <$> Cli.event msg in
    let st :=
      if bool_decide (eventType = Some "content_block_start"%string) then
        match Cli.event msg ≫= Cli.content_block with
        | Some block =>
            if bool_decide (Cli.block_type block = "tool_use"%string)
               && truthy_str (Cli.block_name block)
            then with_progress
                   (Progress.report (default ""%string (Cli.block_name block)) now) st
            else st
        | None => st
        end
      else st in
    if bool_decide (eventType = Some "message_start"%string)
    then set_turnBuffer [] (set_turnCount (turnCount st + 1) st)
    else st.

Definition on_content_delta (ev : Cli.StreamEvent) st :=
  let text := default ""%string (Cli.delta ev ≫= Cli.text) in
  if truthy_str (Some text) then set_turnBuffer (turnBuffer st ++ [text]) st else st.

Definition on_result (env : Env) (now : Z) st :=
  let st := set_isComplete true st in
  let st := with_progress (Progress.cleanup now) st in
  if negb (writableEnded st) then
    let st := write_buffer env now true (turnBuffer st) st in
    let st := set_turnBuffer [] st in
    let st := write (sse_chunk (Adapter.createDoneChunk (requestId env)
                                  (Some (lastModel st)) now)) st in
    let st := write sse_done st in
    end_response st
  else st.

Definition on_error (env : Env) (now : Z) (message : string) st :=
  let st := with_progress (Progress.cleanup now) st in
  let st := if includes "timed out" message
            then notifyTelegram env ("⚠️ 任務超時被終止：" +:+ message) st
            else st in
  if negb (writableEnded st)
  then end_response (write (sse_error message) st)
  else st.

(** [`${code}`] for an exit code or [null] *)
Definition show_code (code : option Z) : string :=
  match code with
  | Some c => pretty c
  | None => "null"
  end.

Definition on_close (code : option Z) st :=
  if negb (writableEnded st) then
    let st :=
      if negb (bool_decide (code = Some 0)) && negb (isComplete st)
      then write (sse_error ("Process exited with code " +:+ show_code code)) st
      else st in
    end_response (write sse_done st)
  else st.

(** [res.on("close", ...)] *)
Definition on_res_close (now : Z) st :=
  if negb (isComplete st)
  then with_progress (Progress.cleanup now) (set_killed true st)
  else st.

Definition step (env : Env) (now : Z) (e : Event) (st : State) : State :=
  match e with
  | Sub (Cli.on_message msg) => on_message now msg st
  | Sub (Cli.on_content_delta ev) => on_content_delta ev st
  | Sub (Cli.on_assistant model) => set_lastModel model st
  | Sub (Cli.on_result _) => on_result env now st
  | Sub (Cli.on_error message) => on_error env now message st
  | Sub (Cli.on_close code) => on_close code st
  | Sub (Cli.on_resume_failed _) => st   (* listened to by [handleChatCompletions] *)
  | ResClose => on_res_close now st
  | ProgressTimer => with_progress (Progress.timer_callback now) st
  | ProgressSent result =>
      with_progress (λ p, (Progress.sendMessage_resolved result p, [])) st
  | StartRejected _ => st   (* [reject(err)]: the headers are already sent *)
  end.

Fixpoint run (env : Env) (evs : list (Z * Event)) (st : State) : State :=
  match evs with
  | [] => st
  | (now, e) :: rest => run env rest (step env now e st)
  end.

End Streaming.

(** ** dist/server/routes.js: [handleNonStreamingResponse] *)

Module NonStreaming.

Inductive Body :=
| completion (r : Adapter.OpenAIChatResponse)
| server_error (message : string).  (* [{error: {message, type: "server_error", code: null}}] *)

Record Response := {
  status : Z;
  body : Body;
}.

Record State := {
  finalResult : option Cli.ClaudeCliResult;
  sent : option Response;     (* [None] while [!res.headersSent] *)
  thrown : nat;               (* [res.json] calls after the response was sent *)
  notified : list string;
}.

Definition init : State :=
  {| finalResult := None; sent := None; thrown := 0; notified := [] |}.

Definition headersSent (st : State) : bool := bool_decide (is_Some (sent st)).

(** [res.status(status).json(body)]; Express throws when the headers
    have been sent already. *)
Definition json (status : Z) (body : Body) (st : State) : State :=
  match sent st with
  | None =>
      {| finalResult := finalResult st;
         sent := Some {| status := status; body := body |};
         thrown := thrown st; notified := notified st |}
  | Some _ =>
      {| finalResult := finalResult st; sent := sent st;
         thrown := S (thrown st); notified := notified st |}
  end.

Definition notifyTelegram (env : Streaming.Env) (message : string) (st : State) :=
  if negb (truthy_str (Streaming.TELEGRAM_NOTIFY_ID env)) then st
  else {| finalResult := finalResult st; sent := sent st; thrown := thrown st;
          notified := notified st ++ [message] |}.

Definition on_result (r : Cli.ClaudeCliResult) (st : State) : State :=
  {| finalResult := Some r; sent := sent st; thrown := thrown st;
     notified := notified st |}.

Definition on_error (env : Streaming.Env) (message : string) (st : State) : State :=
  let st := if includes "timed out" message
            then notifyTelegram env ("⚠️ 任務超時被終止：" +:+ message) st
            else st in
  json 500 (server_error message) st.

Definition exited_without_response (code : option Z) : Response :=
  {| status := 500;
     body := server_error ("Claude CLI exited with code " +:+ Streaming.show_code code
                           +:+ " without response") |}.

Definition on_close (env : Streaming.Env) (now : Z) (code : option Z) (st : State) : State :=
  match finalResult st with
  | Some r =>
      json 200 (completion (Adapter.cliResultToOpenai r (Streaming.requestId env) now)) st
  | None =>
      if negb (headersSent st)
      then json (status (exited_without_response code))
                (body (exited_without_response code)) st
      else st
  end.

Definition step (env : Streaming.Env) (now : Z) (e : Event) (st : State) : State :=
  match e with
  | Sub (Cli.on_result r) => on_result r st
  | Sub (Cli.on_error message) => on_error env message st
  | Sub (Cli.on_close code) => on_close env now code st
  | StartRejected message => json 500 (server_error message) st
  | _ => st
  end.

Fixpoint run (env : Streaming.Env) (evs : list (Z * Event)) (st : State) : State :=
  match evs with
  | [] => st
  | (now, e) :: rest => run env rest (step env now e st)
  end.

End NonStreaming.

(** ** dist/server/routes.js: [handleChatCompletions] *)

Module Routes.

(** The fields of the request body that are read.  [messages] is [None]
    when the field is absent or not an array; [model] stands for
    [extractModel(body.model)], whose source (adapter/openai-to-cli.js)
    is not part of this development. *)
Record RequestBody := {
  messages : option (list string);
  stream : bool;                       (* [body.stream === true] *)
  user : option string;
  model : option string;
}.

(** The options handed to [subprocess.start]; [cli_model] and
    [systemPrompt] come from [openaiToCli]. *)
Record SubprocessOptions := {
  cli_model : string;
  systemPrompt : option string;
  sessionId : option string;
  resumeSessionId : option string;
}.

(** Lines 258-275: look the session up, resume it or create one. *)
Definition session_setup (conversationId : option string) (mdl : option string)
    (now : Z) (uuid : string) (s : Session.SessionManager)
  : bool * option string * Session.SessionManager :=
  if truthy_str conversationId then
    let cid := default ""%string conversationId in
    match Session.get cid s with
    | Some existing =>
        let existing' :=
          {| Session.conversationId := Session.conversationId existing;
             Session.claudeSessionId := Session.claudeSessionId existing;
             Session.createdAt := Session.createdAt existing;
             Session.lastUsedAt := now;
             Session.model := Session.model existing;
             Session.messageCount :=
               Some (or_zero (Session.messageCount existing) + 1) |} in
        (true, Some (Session.claudeSessionId existing),
         Session.save (Session.with_sessions
                         (<[cid := existing']> (Session.sessions s)) s))
    | None =>
        let '(id, s') := Session.getOrCreate cid mdl now uuid s in
        (false, Some id, s')
    end
  else (false, None, s).

Definition build_subOpts (cli_model : string) (systemPrompt : option string)
    (hasExistingSession : bool) (claudeSessionId : option string)
  : SubprocessOptions :=
  if hasExistingSession && truthy_str claudeSessionId then
    {| cli_model := cli_model; systemPrompt := systemPrompt;
       sessionId := None; resumeSessionId := claudeSessionId |}
  else if truthy_str claudeSessionId then
    {| cli_model := cli_model; systemPrompt := systemPrompt;
       sessionId := claudeSessionId; resumeSessionId := None |}
  else
    {| cli_model := cli_model; systemPrompt := systemPrompt;
       sessionId := None; resumeSessionId := None |}.

(** The [resume_failed] listener. *)
Definition on_resume_failed (conversationId : option string)
    (s : Session.SessionManager) : Session.SessionManager :=
  if truthy_str conversationId
  then (Session.delete (default ""%string conversationId) s).2
  else s.

(** One request in flight: the session manager (shared by all requests),
    the variables of [handleChatCompletions], every call of
    [subprocess.start], and the state of the response handler. *)
Record Request := {
  store : Session.SessionManager;
  conversationId : option string;
  hasExistingSession : bool;
  spawned : list SubprocessOptions;
  handler : Streaming.State + NonStreaming.State;
}.

Inductive Outcome :=
| invalid_request (status : Z) (code : string)
| in_flight (r : Request).

Definition handleChatCompletions (env : Streaming.Env) (body : RequestBody)
    (cli_model : string) (systemPrompt : option string)
    (now : Z) (uuid : string) (s : Session.SessionManager) : Outcome :=
  match messages body with
  | None | Some [] => invalid_request 400 "invalid_messages"
  | Some _ =>
      let '(hasExisting, claudeSessionId, s') :=
        session_setup (user body) (model body) now uuid s in
      let subOpts := build_subOpts cli_model systemPrompt hasExisting claudeSessionId in
      in_flight
        {| store := s';
           conversationId := user body;
           hasExistingSession := hasExisting;
           spawned := [subOpts];
           handler := if stream body then inl (Streaming.init env)
                      else inr NonStreaming.init |}
  end.

Definition step (env : Streaming.Env) (now : Z) (e : Event) (r : Request) : Request :=
  let store' :=
    match e with
    | Sub (Cli.on_resume_failed _) => on_resume_failed (conversationId r) (store r)
    | _ => store r
    end in
  {| store := store';
     conversationId := conversationId r;
     hasExistingSession := hasExistingSession r;
     spawned := spawned r;
     handler := match handler r with
                | inl st => inl (Streaming.step env now e st)
                | inr st => inr (NonStreaming.step env now e st)
                end |}.

Fixpoint run (env : Streaming.Env) (evs : list (Z * Event)) (r : Request) : Request :=
  match evs with
  | [] => r
  | (now, e) :: rest => run env rest (step env now e r)
  end.

End Routes.

(** ** Sequences of operations on the session manager *)

Module Ops.

(** The operations that read or change the session map: [load], which
    takes effect when the read of the session file settles ([disk] is what
    it read), the four methods of the store's contract and the two places
    of [handleChatCompletions] that touch the map. *)
Inductive Op :=
| load (disk : option (gmap string Session.SessionMapping))
| getOrCreate (cid : string) (mdl : option string) (uuid : string)
| get (cid : string)
| delete (cid : string)
| cleanup
| request (user : option string) (mdl : option string) (uuid : string)
| resume_failed (conversationId : option string).

Definition apply (now : Z) (o : Op) (s : Session.SessionManager)
  : Session.SessionManager :=
  match o with
  | load disk => Session.load disk s
  | getOrCreate cid mdl uuid => (Session.getOrCreate cid mdl now uuid s).2
  | get _ => s
  | delete cid => (Session.delete cid s).2
  | cleanup => (Session.cleanup now s).2
  | request user mdl uuid => (Routes.session_setup user mdl now uuid s).2
  | resume_failed conversationId => Routes.on_resume_failed conversationId s
  end.

Fixpoint apply_all (ops : list (Z * Op)) (s : Session.SessionManager)
  : Session.SessionManager :=
  match ops with
  | [] => s
  | (now, o) :: rest => apply_all rest (apply now o s)
  end.

(** The entry of [cid] is in the map after every operation of [ops]. *)
Fixpoint kept (cid : string) (ops : list (Z * Op)) (s : Session.SessionManager)
  : Prop :=
  match ops with
  | [] => True
  | (now, o) :: rest =>
      is_Some (Session.sessions (apply now o s) !! cid)
      ∧ kept cid rest (apply now o s)
  end.

End Ops.

(** ** Notions used in the statements *)

(** The fields of a session mapping that are assigned at creation. *)
Definition same_identity (m m' : Session.SessionMapping) : Prop :=
  Session.claudeSessionId m' = Session.claudeSessionId m
  ∧ Session.conversationId m' = Session.conversationId m
  ∧ Session.createdAt m' = Session.createdAt m.

(** A session file that holds a mapping of "c1" from an earlier run of
    the server. *)
Definition stale_session_file : gmap string Session.SessionMapping :=
  {[ "c1"%string :=
       {| Session.conversationId := "c1"; Session.claudeSessionId := "uuid-old";
          Session.createdAt := 10; Session.lastUsedAt := 10;
          Session.model := "sonnet"; Session.messageCount := None |} ]}.

(** No two neighbours of the list are equal. *)
Fixpoint no_adjacent_dup (l : list string) : Prop :=
  match l with
  | x :: rest =>
      match rest with
      | y :: _ => x ≠ y
      | [] => True
      end ∧ no_adjacent_dup rest
  | [] => True
  end.

Definition history_ok (r : Progress.ProgressReporter) : Prop :=
  (length (Progress.toolHistory r) ≤ 6)%nat
  ∧ no_adjacent_dup (Progress.toolHistory r).

(** Every time of [ts] is at least the minimum interval after the one
    before it, the first one after [from]. *)
Fixpoint spaced (from : Z) (ts : list Z) : Prop :=
  match ts with
  | [] => True
  | t :: rest => from + Progress.MIN_UPDATE_INTERVAL ≤ t ∧ spaced t rest
  end.

(** A schedule of reporter events, starting at clock reading [t0], in
    which the clock does not run backwards and the timer callback runs on
    time: not before the timer is due, and before any [report] whose clock
    reading has reached the due time. *)
Fixpoint punctual (t0 : Z) (evs : list (Z * Progress.Event))
    (r : Progress.ProgressReporter) : Prop :=
  match evs with
  | [] => True
  | (now, e) :: rest =>
      t0 ≤ now
      ∧ match e, Progress.throttleTimer r with
        | Progress.TimerFired, Some due => due ≤ now
        | Progress.Report _, Some due => now < due
        | _, _ => True
        end
      ∧ punctual now rest (Progress.step now e r).1
  end.

(** What holds of a reporter between two events at clock reading [t]. *)
Definition throttle_inv (t : Z) (r : Progress.ProgressReporter) : Prop :=
  Progress.lastUpdateAt r ≤ t
  ∧ ∀ due, Progress.throttleTimer r = Some due →
           due = Progress.lastUpdateAt r + Progress.MIN_UPDATE_INTERVAL.

(** *** Turns of an event sequence *)

(** A [message_start] boundary: a [stream_event] message whose nested
    event has that type. *)
Definition is_message_start (e : Event) : bool :=
  match e with
  | Sub (Cli.on_message msg) =>
      bool_decide (Cli.msg_type msg = "stream_event"%string)
      && bool_decide (Cli.event_type <$> Cli.event msg = Some "message_start"%string)
  | _ => false
  end.

(** The text of a content delta, empty when the delta carries none. *)
Definition delta_text (e : Event) : option string :=
  match e with
  | Sub (Cli.on_content_delta ev) => Some (default ""%string (Cli.delta ev ≫= Cli.text))
  | _ => None
  end.

Definition delta_texts (evs : list (Z * Event)) : list string :=
  omap (λ te, delta_text te.2) evs.

Fixpoint count_starts (evs : list (Z * Event)) : nat :=
  match evs with
  | [] => 0
  | te :: rest => (if is_message_start te.2 then 1 else 0) + count_starts rest
  end%nat.

(** What follows the [n]-th [message_start] of [evs] (all of [evs] for
    [n = 0]). *)
Fixpoint after_boundary (n : nat) (evs : list (Z * Event)) : list (Z * Event) :=
  match n, evs with
  | O, _ => evs
  | S _, [] => []
  | S n', te :: rest =>
      if is_message_start te.2 then after_boundary n' rest
      else after_boundary n rest
  end.

(** The events that can precede the terminal [result] while the response
    is still open: messages, content deltas, assistant messages, and the
    asynchronous events of the progress reporter. *)
Definition pre_result (e : Event) : bool :=
  match e with
  | Sub (Cli.on_message _) | Sub (Cli.on_content_delta _)
  | Sub (Cli.on_assistant _) | Sub (Cli.on_resume_failed _)
  | ProgressTimer | ProgressSent _ => true
  | _ => false
  end.

(** The assistant text the client reads off the SSE stream: the [content]
    of the delta of every chunk, in order. *)
Definition chunk_texts (ws : list Streaming.SseWrite) : list string :=
  ws ≫= (λ w, match w with
              | Streaming.sse_chunk c =>
                  omap (λ ch, Adapter.content (Adapter.delta ch)) (Adapter.choices c)
              | _ => []
              end).

Definition concat_strings (l : list string) : string :=
  foldr String.append ""%string l.

Definition nonempty (t : string) : bool := truthy_str (Some t).

Definition is_sse_error (w : Streaming.SseWrite) : bool :=
  match w with
  | Streaming.sse_error _ => true
  | _ => false
  end.

(** *** Example events *)

Definition message_start_event : Event :=
  Sub (Cli.on_message
         {| Cli.msg_type := "stream_event";
            Cli.event := Some {| Cli.event_type := "message_start";
                                 Cli.content_block := None;
                                 Cli.delta := None |} |}).

Definition content_delta_event (t : string) : Event :=
  Sub (Cli.on_content_delta
         {| Cli.event_type := "content_block_delta";
            Cli.content_block := None;
            Cli.delta := Some {| Cli.text := Some t |} |}).

Definition result_event (t : string) : Event :=
  Sub (Cli.on_result {| Cli.result := t; Cli.usage := None; Cli.modelUsage := None |}).

Definition example_env : Streaming.Env :=
  {| Streaming.requestId := "req"; Streaming.TELEGRAM_NOTIFY_ID := None |}.

(** *** Non-streaming runs *)

(** The last [result] message of an event sequence. *)
Definition last_result (evs : list (Z * Event)) : option Cli.ClaudeCliResult :=
  last (omap (λ te, match te.2 with
                    | Sub (Cli.on_result r) => Some r
                    | _ => None
                    end) evs).

(** *** Resume failure *)

Definition is_resume_failed (e : Event) : bool :=
  match e with
  | Sub (Cli.on_resume_failed _) => true
  | _ => false
  end.

(** The events that end a request in failure: an [error] event, or
    [close] with an exit code other than 0. *)
Definition failure (e : Event) : bool :=
  match e with
  | Sub (Cli.on_error _) => true
  | Sub (Cli.on_close code) => negb (bool_decide (code = Some 0))
  | _ => false
  end.

(** Modelled from the spec: what [ClaudeSubprocess] (subprocess/manager.js,
    whose source is absent) emits for a request whose resume is refused.
    It signals [resume_failed], distinct from a generic error; the child
    produces no [result]; and the run ends with an [error] event or with
    [close] carrying an abnormal exit code, which the handlers surface. *)
Inductive resume_failure_emission : list (Z * Event) → Prop :=
| resume_failure_run pre t errorText post tend ending :
    Forall (λ te, pre_result te.2 = true) pre →
    Forall (λ te, pre_result te.2 = true) post →
    failure ending = true →
    resume_failure_emission
      ((pre ++ [(t, Sub (Cli.on_resume_failed errorText))] ++ post) ++ [(tend, ending)]).

(** The response of a request is an error: the SSE stream carries an
    error payload and no content and is ended, or the JSON response is a
    500 [server_error]. *)
Definition error_surfaced (h : Streaming.State + NonStreaming.State) : Prop :=
  match h with
  | inl st =>
      Streaming.writableEnded st = true
      ∧ (∃ m, Streaming.sse_error m ∈ Streaming.written st)
      ∧ chunk_texts (Streaming.written st) = []
  | inr st =>
      ∃ m, NonStreaming.sent st
           = Some {| NonStreaming.status := 500;
                     NonStreaming.body := NonStreaming.server_error m |}
  end.

(** [body.messages] is a non-empty array. *)
Definition valid_messages (body : Routes.RequestBody) : bool :=
  match Routes.messages body with
  | Some (_ :: _) => true
  | _ => false
  end.

(** ** dist/server/routes.js: the bot token and [telegramApi] *)

Module Telegram.

(** The module variable [_cachedBotToken]: [undefined] until the first
    lookup, then [null] or the token. *)
Inductive Cache :=
| unread
| cached (token : option string).

(** [getTelegramBotToken()].  [config] is what reading and parsing
    [openclaw.json] gives at the time of the call: [None] when either
    throws, otherwise the value of [config?.channels?.telegram?.botToken]
    ([None] when a link of the chain is missing). *)
Definition getTelegramBotToken (config : option (option string)) (c : Cache)
  : option string * Cache :=
  match c with
  | cached token => (token, c)
  | unread =>
      let token := match config with
                   | Some botToken => if truthy_str botToken then botToken else None
                   | None => None
                   end in
      (token, cached token)
  end.

Definition method_name (call : Progress.ApiCall) : string :=
  match call with
  | Progress.sendMessage _ _ => "sendMessage"
  | Progress.editMessageText _ _ _ => "editMessageText"
  | Progress.deleteMessage _ _ => "deleteMessage"
  end.

(** A [fetch] made by [telegramApi]: the URL and the parameters posted. *)
Record Fetch := {
  url : string;
  params : Progress.ApiCall;
}.

(** [telegramApi(method, params)].  [reply] is what the POST gives: the
    parsed body, or [None] when [fetch] or [resp.json()] throws.  The
    result is the value returned, the cache, and the requests made. *)
Definition telegramApi (config : option (option string)) (call : Progress.ApiCall)
    (reply : option Progress.ApiResponse) (c : Cache)
  : option Progress.ApiResponse * Cache * list Fetch :=
  let '(token, c) := getTelegramBotToken config c in
  if negb (truthy_str token) then (None, c, [])
  else (reply, c,
        [ {| url := "https://api.telegram.org/bot" +:+ default ""%string token
                    +:+ "/" +:+ method_name call;
             params := call |} ]).

End Telegram.

(** ** dist/server/routes.js: [handleModels] *)

Module Models.

Record ModelEntry := {
  id : string;
  object : string;
  owned_by : string;
  created : Z;
}.

(** The [data] array of the response of [GET /v1/models]. *)
Definition handleModels (now : Z) : list ModelEntry :=
  [ {| id := "claude-opus-4"; object := "model"; owned_by := "anthropic";
       created := Adapter.seconds now |};
    {| id := "claude-sonnet-4"; object := "model"; owned_by := "anthropic";
       created := Adapter.seconds now |};
    {| id := "claude-haiku-4"; object := "model"; owned_by := "anthropic";
       created := Adapter.seconds now |} ].

End Models.

(** ** Notions used in the further properties *)

(** The document of the last [save()] call, that is the last one handed
    to [fs.writeFile]; when [save] has not been called yet, what [load]
    read.  The writes are started without waiting for the earlier ones, so
    this is the document the manager last asked to store, not necessarily
    what the file holds. *)
Definition last_saved (disk : option (gmap string Session.SessionMapping))
    (s : Session.SessionManager) : gmap string Session.SessionMapping :=
  default (default ∅ disk) (last (Session.written s)).

(** The last saved document and the map hold the same conversations, each
    with the same provider session id, conversation id and creation
    time. *)
Definition saved_tracks_map (disk : option (gmap string Session.SessionMapping))
    (s : Session.SessionManager) : Prop :=
  ∀ k, match last_saved disk s !! k, Session.sessions s !! k with
       | Some d, Some m => same_identity d m
       | None, None => True
       | _, _ => False
       end.

(** Requests of one conversation, each with its clock reading, model and
    the uuid at hand. *)
Definition requests_of (cid : string) (reqs : list (Z * (option string * string)))
  : list (Z * Ops.Op) :=
  (λ r, (r.1, Ops.request (Some cid) r.2.1 r.2.2)) <$> reqs.

(** The chunks the loop of the [result] listener writes for a buffer. *)
Fixpoint buffer_chunks (env : Streaming.Env) (now : Z) (model : string)
    (isFirst : bool) (buf : list string) : list Streaming.SseWrite :=
  match buf with
  | [] => []
  | t :: rest =>
      Streaming.sse_chunk (Streaming.content_chunk env now model isFirst t)
      :: buffer_chunks env now model false rest
  end.

(** The model named by the last [assistant] message, if any. *)
Definition last_assistant (evs : list (Z * Event)) : string :=
  default "claude-sonnet-4"%string
    (last (omap (λ te, match te.2 with
                       | Sub (Cli.on_assistant model) => Some model
                       | _ => None
                       end) evs)).

(** What an SSE response can look like. *)
Inductive transcript (env : Streaming.Env) : bool → list Streaming.SseWrite → Prop :=
| transcript_open :
    transcript env false [Streaming.sse_ok]
| transcript_result now model buf :
    transcript env true
      (Streaming.sse_ok :: buffer_chunks env now model true buf
         ++ [ Streaming.sse_chunk
                (Adapter.createDoneChunk (Streaming.requestId env) (Some model) now);
              Streaming.sse_done ])
| transcript_error message :
    transcript env true [Streaming.sse_ok; Streaming.sse_error message]
| transcript_exit code :
    code ≠ Some 0 →
    transcript env true
      [ Streaming.sse_ok;
        Streaming.sse_error ("Process exited with code " +:+ Streaming.show_code code);
        Streaming.sse_done ]
| transcript_closed :
    transcript env true [Streaming.sse_ok; Streaming.sse_done].

(** The response stream closes before any [result] has arrived. *)
Fixpoint disconnect_before_result (evs : list (Z * Event)) : bool :=
  match evs with
  | [] => false
  | te :: rest =>
      match te.2 with
      | ResClose => true
      | Sub (Cli.on_result _) => false
      | _ => disconnect_before_result rest
      end
  end.

(** The notifications due for the [error] events of a run: one for each
    message that contains "timed out". *)
Definition timeout_notices (evs : list (Z * Event)) : list string :=
  omap (λ te, match te.2 with
              | Sub (Cli.on_error message) =>
                  if includes "timed out" message
                  then Some ("⚠️ 任務超時被終止：" +:+ message)%string
                  else None
              | _ => None
              end) evs.

(** The answer of the non-streaming handler read off the events: that of
    the first event that answers, given the last [result] seen so far. *)
Fixpoint first_answer (env : Streaming.Env) (final : option Cli.ClaudeCliResult)
    (evs : list (Z * Event)) : option NonStreaming.Response :=
  match evs with
  | [] => None
  | (now, e) :: rest =>
      match e with
      | Sub (Cli.on_result r) => first_answer env (Some r) rest
      | Sub (Cli.on_error message) | StartRejected message =>
          Some {| NonStreaming.status := 500;
                  NonStreaming.body := NonStreaming.server_error message |}
      | Sub (Cli.on_close code) =>
          Some match final with
               | Some r =>
                   {| NonStreaming.status := 200;
                      NonStreaming.body :=
                        NonStreaming.completion
                          (Adapter.cliResultToOpenai r (Streaming.requestId env) now) |}
               | None => NonStreaming.exited_without_response code
               end
      | _ => first_answer env final rest
      end
  end.

Definition targets_message (chat : option string) (mid : option Z)
    (c : Z * Progress.ApiCall) : Prop :=
  match c.2 with
  | Progress.sendMessage _ _ => False
  | Progress.editMessageText chat' mid' _ => chat' = chat ∧ mid' = mid
  | Progress.deleteMessage chat' mid' => chat' = chat ∧ mid' = mid
  end.

Definition is_send_resolved (e : Progress.Event) : bool :=
  match e with
  | Progress.SendMessageResolved _ => true
  | _ => false
  end.

(** The text a call shows, if it shows one. *)
Definition call_text (c : Progress.ApiCall) : option string :=
  match c with
  | Progress.sendMessage _ text | Progress.editMessageText _ _ text => Some text
  | Progress.deleteMessage _ _ => None
  end.

(** A reporter without a destination: no chat id, no timer armed. *)
Definition reporter_disabled (r : Progress.ProgressReporter) : Prop :=
  truthy_str (Progress.chatId r) = false ∧ Progress.throttleTimer r = None.

(** A reporter after [cleanup]. *)
Definition reporter_terminated (r : Progress.ProgressReporter) : Prop :=
  Progress.isDeleted r = true ∧ Progress.throttleTimer r = None.

(** *** The reporter as driven by the streaming handler *)

Definition is_result_event (e : Event) : bool :=
  match e with
  | Sub (Cli.on_result _) => true
  | _ => false
  end.

(** The tool named by a message, when the message is the start of a
    [tool_use] content block with a name. *)
Definition tool_call_name (msg : Cli.ClaudeCliMessage) : option string :=
  if bool_decide (Cli.msg_type msg = "stream_event"%string) then
    match Cli.event msg with
    | Some ev =>
        if bool_decide (Cli.event_type ev = "content_block_start"%string) then
          match Cli.content_block ev with
          | Some block =>
              if bool_decide (Cli.block_type block = "tool_use"%string)
                 && truthy_str (Cli.block_name block)
              then Cli.block_name block
              else None
          | None => None
          end
        else None
    | None => None
    end
  else None.

(** The reporter methods an event makes the handler call, given whether
    a [result] has been seen. *)
Definition reporter_events (complete : bool) (e : Event) : list Progress.Event :=
  match e with
  | Sub (Cli.on_message msg) =>
      match tool_call_name msg with
      | Some name => [Progress.Report name]
      | None => []
      end
  | Sub (Cli.on_result _) | Sub (Cli.on_error _) => [Progress.Cleanup]
  | ResClose => if complete then [] else [Progress.Cleanup]
  | ProgressTimer => [Progress.TimerFired]
  | ProgressSent result => [Progress.SendMessageResolved result]
  | _ => []
  end.

Fixpoint reporter_trace (complete : bool) (evs : list (Z * Event))
  : list (Z * Progress.Event) :=
  match evs with
  | [] => []
  | (now, e) :: rest =>
      ((λ pe, (now, pe)) <$> reporter_events complete e)
      ++ reporter_trace (complete || is_result_event e) rest
  end.

(** The chat the handler's reporter is created for. *)
Definition reporter_chat (env : Streaming.Env) : option string :=
  if truthy_str (Streaming.TELEGRAM_NOTIFY_ID env)
  then Streaming.TELEGRAM_NOTIFY_ID env else None.

(** * Properties *)

(** ** Session manager *)

Section session_lemmas.
Import Session.

Lemma cleanup_fold_spec cutoff (m0 m : gmap string SessionMapping) (n0 : Z) :
  let r := map_fold (cleanup_visit cutoff) (m0, n0) m in
  (∀ k, r.1 !! k =
        match m !! k with
        | Some v => if lastUsedAt v <? cutoff then None else m0 !! k
        | None => m0 !! k
        end)
  ∧ n0 ≤ r.2
  ∧ (r.2 = n0 → r.1 = m0).
Proof.
  apply (map_fold_weak_ind
           (λ r m, (∀ k, r.1 !! k =
                         match m !! k with
                         | Some v => if lastUsedAt v <? cutoff then None else m0 !! k
                         | None => m0 !! k
                         end)
                   ∧ n0 ≤ r.2 ∧ (r.2 = n0 → r.1 = m0))).
  - split; [|split]; simpl; [intros k; by rewrite lookup_empty | lia | done].
  - intros i x m' r Hi (Hlk & Hle & Heq). unfold cleanup_visit.
    destruct (lastUsedAt x <? cutoff) eqn:Hx; simpl.
    + split; [|split]; [| lia | lia].
      intros k. destruct (decide (i = k)) as [->|Hne].
      * rewrite lookup_delete_eq, lookup_insert_eq, Hx. done.
      * rewrite lookup_delete_ne, lookup_insert_ne by done. apply Hlk.
    + split; [|split]; [| lia | done].
      intros k. destruct (decide (i = k)) as [->|Hne].
      * rewrite lookup_insert_eq, Hx, Hlk, Hi. done.
      * rewrite lookup_insert_ne by done. apply Hlk.
Qed.

(** [cleanup] never alters an entry it keeps. *)
Lemma cleanup_lookup now s k v :
  sessions (cleanup now s).2 !! k = Some v → sessions s !! k = Some v.
Proof.
  unfold cleanup.
  pose proof (cleanup_fold_spec (now - SESSION_TTL_MS) (sessions s) (sessions s) 0)
    as (Hlk & _ & _).
  destruct (map_fold _ _ _) as [m removed]; simpl in *.
  assert (m !! k = Some v → sessions s !! k = Some v) as Hm.
  { rewrite Hlk. destruct (sessions s !! k) as [w|]; [|done].
    by destruct (lastUsedAt w <? _). }
  by destruct (0 <? removed).
Qed.

(** Whenever [cleanup] changes the map it writes the new document. *)
Lemma cleanup_written now s :
  let s' := (cleanup now s).2 in
  sessions s' ≠ sessions s → written s' = written s ++ [sessions s'].
Proof.
  unfold cleanup.
  pose proof (cleanup_fold_spec (now - SESSION_TTL_MS) (sessions s) (sessions s) 0)
    as (_ & Hle & Heq).
  destruct (map_fold _ _ _) as [m removed]; simpl in *.
  destruct (0 <? removed) eqn:Hr; simpl; [done|].
  intros Hm. apply Z.ltb_ge in Hr. destruct Hm. apply Heq. lia.
Qed.

(** Whenever [delete] changes the map it writes the new document. *)
Lemma delete_written cid s :
  let s' := (delete cid s).2 in
  sessions s' ≠ sessions s → written s' = written s ++ [sessions s'].
Proof. unfold delete. by destruct (sessions s !! cid). Qed.

Lemma delete_lookup cid s k v :
  sessions (delete cid s).2 !! k = Some v → sessions s !! k = Some v.
Proof.
  unfold delete. destruct (sessions s !! cid) eqn:Hc; simpl; [|done].
  intros H. by apply lookup_delete_Some in H as [_ H].
Qed.

Lemma delete_gone cid s : sessions (delete cid s).2 !! cid = None.
Proof.
  unfold delete. destruct (sessions s !! cid) eqn:Hc; simpl; [|done].
  apply lookup_delete_eq.
Qed.

(** On its create path [getOrCreate] writes the new document. *)
Lemma getOrCreate_new cid mdl now uuid s :
  sessions s !! cid = None →
  getOrCreate cid mdl now uuid s =
    (uuid,
     save (with_sessions
             (<[cid := {| conversationId := cid; claudeSessionId := uuid;
                          createdAt := now; lastUsedAt := now;
                          model := default "sonnet"%string mdl;
                          messageCount := None |}]> (sessions s)) s)).
Proof. intros H. unfold getOrCreate. by rewrite H. Qed.

Lemma getOrCreate_existing cid mdl now uuid s m :
  sessions s !! cid = Some m →
  getOrCreate cid mdl now uuid s =
    (claudeSessionId m,
     with_sessions (<[cid := touch now (default "sonnet"%string mdl) m]> (sessions s)) s).
Proof. intros H. unfold getOrCreate. by rewrite H. Qed.

End session_lemmas.

(** C2.  For a conversation with no stored session, [getOrCreate] returns
    the fresh id, stores the mapping under the conversation id and writes
    the session document; a second call for the same conversation (at a
    clock reading that is not earlier) returns the same id, creates no
    mapping and changes no other entry, and leaves [lastUsedAt] at the
    second reading, which is no smaller than before. *)
Theorem getOrCreate_creates_then_reuses
    (s : Session.SessionManager) (cid : string) (mdl1 mdl2 : option string)
    (now1 now2 : Z) (uuid1 uuid2 : string) :
  Session.sessions s !! cid = None →
  now1 ≤ now2 →
  let r1 := Session.getOrCreate cid mdl1 now1 uuid1 s in
  let r2 := Session.getOrCreate cid mdl2 now2 uuid2 r1.2 in
  r1.1 = uuid1
  ∧ (∃ m1, Session.sessions r1.2 = <[cid := m1]> (Session.sessions s)
           ∧ Session.conversationId m1 = cid
           ∧ Session.claudeSessionId m1 = uuid1
           ∧ Session.lastUsedAt m1 = now1
           ∧ ∃ m2, Session.sessions r2.2 !! cid = Some m2
                   ∧ Session.claudeSessionId m2 = uuid1
                   ∧ Session.lastUsedAt m2 = now2
                   ∧ Session.lastUsedAt m1 ≤ Session.lastUsedAt m2)
  ∧ Session.written r1.2 = Session.written s ++ [Session.sessions r1.2]
  ∧ r2.1 = r1.1
  ∧ dom (Session.sessions r2.2) = dom (Session.sessions r1.2)
  ∧ (∀ k, k ≠ cid → Session.sessions r2.2 !! k = Session.sessions r1.2 !! k).
Proof.
  intros Hnone Hclock r1 r2. subst r1 r2.
  rewrite (getOrCreate_new _ _ _ _ _ Hnone). simpl.
  erewrite getOrCreate_existing by (simpl; apply lookup_insert_eq). simpl.
  split; [done|]. split.
  { eexists. split; [done|]. simpl. repeat split.
    eexists. split; [apply lookup_insert_eq|]. simpl. repeat split; lia. }
  split; [done|]. split; [done|]. split.
  - rewrite dom_insert_L. apply set_eq. intros k.
    rewrite elem_of_union, elem_of_singleton, elem_of_dom.
    split; [|tauto]. intros [->|H]; [|done].
    rewrite lookup_insert_eq. eauto.
  - intros k Hk. by rewrite lookup_insert_ne.
Qed.

(** The scenario of the specification: conversation "c1", model "sonnet". *)
Lemma getOrCreate_creates_then_reuses_c1 :
  let r1 := Session.getOrCreate "c1" (Some "sonnet"%string) 1000 "uuid-a" Session.empty in
  let r2 := Session.getOrCreate "c1" (Some "sonnet"%string) 2000 "uuid-b" r1.2 in
  r1.1 = "uuid-a"%string ∧ r2.1 = r1.1
  ∧ dom (Session.sessions r2.2) = dom (Session.sessions r1.2).
Proof.
  pose proof (getOrCreate_creates_then_reuses Session.empty "c1"
                (Some "sonnet"%string) (Some "sonnet"%string) 1000 2000
                "uuid-a" "uuid-b" (lookup_empty _) ltac:(lia)) as H.
  cbv zeta in H. destruct H as (H1 & _ & _ & H2 & H3 & _).
  exact (conj H1 (conj H2 H3)).
Defined.

(** C3.  On the path of [getOrCreate] that finds an existing session the
    entry is changed in memory ([lastUsedAt], [model]) and nothing is
    written: the log of saved documents is as it was. *)
Theorem getOrCreate_existing_skips_save
    (s : Session.SessionManager) (cid : string) (m : Session.SessionMapping)
    (mdl : option string) (now : Z) (uuid : string) :
  Session.sessions s !! cid = Some m →
  let s' := (Session.getOrCreate cid mdl now uuid s).2 in
  Session.sessions s' !! cid
    = Some (Session.touch now (default "sonnet"%string mdl) m)
  ∧ Session.written s' = Session.written s.
Proof.
  intros H s'. subst s'. rewrite (getOrCreate_existing _ _ _ _ _ _ H). simpl.
  split; [apply lookup_insert_eq | done].
Qed.

(** A stored session for "c1" is refreshed at a later time with another
    model: the map changes, the saved documents do not. *)
Lemma getOrCreate_existing_skips_save_c1 :
  let s := (Session.getOrCreate "c1" (Some "sonnet"%string) 1000 "uuid-a" Session.empty).2 in
  let s' := (Session.getOrCreate "c1" (Some "opus"%string) 5000 "uuid-b" s).2 in
  Session.sessions s' !! "c1"%string ≠ Session.sessions s !! "c1"%string
  ∧ Session.written s' = Session.written s.
Proof.
  intros s s'.
  destruct (getOrCreate_existing_skips_save s "c1"
              {| Session.conversationId := "c1"; Session.claudeSessionId := "uuid-a";
                 Session.createdAt := 1000; Session.lastUsedAt := 1000;
                 Session.model := "sonnet"; Session.messageCount := None |}
              (Some "opus"%string) 5000 "uuid-b") as [Hl Hw].
  { subst s. simpl. apply lookup_insert_eq. }
  split; [|exact Hw].
  fold s' in Hl. rewrite Hl. subst s. vm_compute. intros Heq. discriminate Heq.
Defined.

(** *** The provider session id of a stored mapping *)

Section session_identity.
Import Session.

Lemma same_identity_refl m : same_identity m m.
Proof. by repeat split. Qed.

Lemma same_identity_trans m1 m2 m3 :
  same_identity m1 m2 → same_identity m2 m3 → same_identity m1 m3.
Proof. unfold same_identity. intros (-> & -> & ->) (-> & -> & ->). done. Qed.

Lemma getOrCreate_identity c mdl now uuid s cid m m' :
  sessions s !! cid = Some m →
  sessions (getOrCreate c mdl now uuid s).2 !! cid = Some m' →
  same_identity m m'.
Proof.
  intros Hm. unfold getOrCreate.
  destruct (sessions s !! c) as [e|] eqn:Hc; simpl.
  - destruct (decide (c = cid)) as [->|Hne].
    + rewrite lookup_insert_eq. intros [= <-].
      rewrite Hm in Hc. injection Hc as ->. by repeat split.
    + rewrite lookup_insert_ne by done. rewrite Hm. intros [= <-].
      apply same_identity_refl.
  - destruct (decide (c = cid)) as [->|Hne]; [congruence|].
    rewrite lookup_insert_ne by done. rewrite Hm. intros [= <-].
    apply same_identity_refl.
Qed.

Lemma session_setup_identity user mdl now uuid s cid m m' :
  sessions s !! cid = Some m →
  sessions (Routes.session_setup user mdl now uuid s).2 !! cid = Some m' →
  same_identity m m'.
Proof.
  intros Hm. unfold Routes.session_setup.
  destruct (truthy_str user); simpl; [|rewrite Hm; intros [= <-]; apply same_identity_refl].
  unfold get. destruct (sessions s !! default ""%string user) as [e|] eqn:Hc.
  - simpl. destruct (decide (default ""%string user = cid)) as [Heq|Hne].
    + rewrite Heq in *. rewrite lookup_insert_eq. intros [= <-].
      rewrite Hm in Hc. injection Hc as ->. by repeat split.
    + rewrite lookup_insert_ne by done. rewrite Hm. intros [= <-].
      apply same_identity_refl.
  - pose proof (getOrCreate_identity (default ""%string user) mdl now uuid s cid m m' Hm)
      as Hg.
    destruct (getOrCreate _ _ _ _ _) as [i s']. exact Hg.
Qed.

(** Once the store is loaded, [load] returns at its first test. *)
Lemma load_loaded disk s : loaded s = true → load disk s = s.
Proof. intros H. unfold load. by rewrite H. Qed.

Lemma getOrCreate_loaded cid mdl now uuid s :
  loaded (getOrCreate cid mdl now uuid s).2 = loaded s.
Proof. unfold getOrCreate. by destruct (sessions s !! cid). Qed.

Lemma delete_loaded cid s : loaded (delete cid s).2 = loaded s.
Proof. unfold delete. by destruct (sessions s !! cid). Qed.

Lemma cleanup_loaded now s : loaded (cleanup now s).2 = loaded s.
Proof.
  unfold cleanup. destruct (map_fold _ _ _) as [m removed].
  by destruct (0 <? removed).
Qed.

(** Only [load] sets the flag, and nothing clears it. *)
Lemma apply_loaded now o s : loaded s = true → loaded (Ops.apply now o s) = true.
Proof.
  intros H. destruct o as [disk|c mdl uuid|c|c| |user mdl uuid|conv]; simpl.
  - by rewrite load_loaded.
  - by rewrite getOrCreate_loaded.
  - done.
  - by rewrite delete_loaded.
  - by rewrite cleanup_loaded.
  - unfold Routes.session_setup. destruct (truthy_str user); [|done].
    unfold get. destruct (sessions s !! default ""%string user); [done|].
    pose proof (getOrCreate_loaded (default ""%string user) mdl now uuid s) as Hg.
    destruct (getOrCreate _ _ _ _ _) as [i s']. simpl in *. congruence.
  - unfold Routes.on_resume_failed. destruct (truthy_str conv); [|done].
    by rewrite delete_loaded.
Qed.

(** On a loaded store, no operation changes the identity of an entry that
    it keeps. *)
Lemma apply_identity now o s cid m m' :
  loaded s = true →
  sessions s !! cid = Some m →
  sessions (Ops.apply now o s) !! cid = Some m' →
  same_identity m m'.
Proof.
  intros Hl Hm. destruct o as [disk|c mdl uuid|c|c| |user mdl uuid|conv]; simpl.
  - rewrite load_loaded by done. rewrite Hm. intros [= <-]. apply same_identity_refl.
  - by apply getOrCreate_identity.
  - rewrite Hm. intros [= <-]. apply same_identity_refl.
  - intros H%delete_lookup. rewrite Hm in H. injection H as <-.
    apply same_identity_refl.
  - intros H%cleanup_lookup. rewrite Hm in H. injection H as <-.
    apply same_identity_refl.
  - by apply session_setup_identity.
  - unfold Routes.on_resume_failed. destruct (truthy_str conv).
    + intros H%delete_lookup. rewrite Hm in H. injection H as <-.
      apply same_identity_refl.
    + rewrite Hm. intros [= <-]. apply same_identity_refl.
Qed.

End session_identity.

(** C9, as stated, fails.  On the loaded store the session of "c1" is
    created with id "uuid-a"; the resume of a later request fails, which
    deletes the mapping, and the request after that creates a mapping with
    the next id, "uuid-b": the provider session id stored for "c1" has
    changed. *)
Lemma session_id_replaced_after_removal :
  let s0 := (Session.getOrCreate "c1" None 1000 "uuid-a"
               (Session.load None Session.empty)).2 in
  let s1 := Ops.apply_all
              [ (2000, Ops.resume_failed (Some "c1"%string));
                (3000, Ops.request (Some "c1"%string) None "uuid-b") ] s0 in
  Session.claudeSessionId <$> Session.sessions s0 !! "c1"%string = Some "uuid-a"%string
  ∧ Session.claudeSessionId <$> Session.sessions s1 !! "c1"%string = Some "uuid-b"%string.
Proof. vm_compute. done. Qed.

(** Removal apart, the id can change in one more way, before the store
    is loaded.  The session of "c1" is created with id "uuid-a" while the
    read of the session file is still pending; when [load] then takes
    effect it replaces the whole map by the content of the file, which
    holds an older mapping of "c1": the conversation has a mapping before
    and after, and its id is now "uuid-old".  On the loaded store the same
    [load] changes nothing. *)
Lemma session_id_replaced_by_late_load :
  let s0 := (Session.getOrCreate "c1" None 1000 "uuid-a" Session.empty).2 in
  let s1 := Ops.apply_all [ (2000, Ops.load (Some stale_session_file)) ] s0 in
  let s2 := Ops.apply_all [ (3000, Ops.load (Some stale_session_file)) ] s1 in
  Session.loaded s0 = false
  ∧ Session.claudeSessionId <$> Session.sessions s0 !! "c1"%string = Some "uuid-a"%string
  ∧ Ops.kept "c1" [ (2000, Ops.load (Some stale_session_file)) ] s0
  ∧ Session.claudeSessionId <$> Session.sessions s1 !! "c1"%string = Some "uuid-old"%string
  ∧ Session.loaded s1 = true
  ∧ s2 = s1.
Proof. vm_compute. repeat split. by eexists. Qed.

(** C9, amended.  Once the store is loaded, along every sequence of
    session-manager operations ([load] among them) and request-handler
    operations during which the mapping of a conversation is not removed,
    the mapping keeps the provider session id (and the conversation id and
    creation time) it had at the start, whatever happens to [lastUsedAt],
    [model] and [messageCount]. *)
Theorem claudeSessionId_immutable_while_stored
    (ops : list (Z * Ops.Op)) (s : Session.SessionManager) (cid : string)
    (m : Session.SessionMapping) :
  Session.loaded s = true →
  Session.sessions s !! cid = Some m →
  Ops.kept cid ops s →
  ∃ m', Session.sessions (Ops.apply_all ops s) !! cid = Some m'
        ∧ Session.claudeSessionId m' = Session.claudeSessionId m
        ∧ Session.conversationId m' = Session.conversationId m
        ∧ Session.createdAt m' = Session.createdAt m.
Proof.
  revert s m. induction ops as [|[now o] ops IH]; intros s m Hl Hm Hkept; simpl in *.
  - exists m. by repeat split.
  - destruct Hkept as [[m1 Hm1] Hkept].
    pose proof (apply_loaded now o s Hl) as Hl1.
    destruct (IH _ _ Hl1 Hm1 Hkept) as (m' & Hm' & Hid).
    exists m'. split; [done|].
    pose proof (apply_identity now o s cid m m1 Hl Hm Hm1) as H1.
    apply (same_identity_trans m m1 m'); [done|]. exact Hid.
Qed.

(** On the loaded store a session is created, refreshed through
    [getOrCreate], outlives a second [load] of a file that has another id
    for it, is resumed by a request and survives a sweep: its id is still
    the one it was created with. *)
Lemma claudeSessionId_immutable_while_stored_c1 :
  let s0 := (Session.getOrCreate "c1" None 1000 "uuid-a"
               (Session.load None Session.empty)).2 in
  let ops := [ (2000, Ops.getOrCreate "c1" (Some "opus"%string) "uuid-b");
               (2500, Ops.load (Some stale_session_file));
               (3000, Ops.request (Some "c1"%string) None "uuid-c");
               (4000, Ops.cleanup) ] in
  ∃ m', Session.sessions (Ops.apply_all ops s0) !! "c1"%string = Some m'
        ∧ Session.claudeSessionId m' = "uuid-a"%string.
Proof.
  intros s0 ops.
  destruct (claudeSessionId_immutable_while_stored ops s0 "c1"
              {| Session.conversationId := "c1"; Session.claudeSessionId := "uuid-a";
                 Session.createdAt := 1000; Session.lastUsedAt := 1000;
                 Session.model := "sonnet"; Session.messageCount := None |})
    as (m' & Hm' & Hid & _).
  - vm_compute. reflexivity.
  - vm_compute. reflexivity.
  - vm_compute. repeat split; eexists; reflexivity.
  - exists m'. split; [exact Hm' | exact Hid].
Defined.

(** ** Progress reporter *)

Section progress_history.
Import Progress.

Lemma no_adjacent_dup_snoc l x :
  no_adjacent_dup l → last l ≠ Some x → no_adjacent_dup (l ++ [x]).
Proof.
  induction l as [|a [|b l] IH]; simpl.
  - done.
  - intros _ Hx. split; [congruence | done].
  - intros [Hab Hrest] Hx. split; [done|]. apply IH; done.
Qed.

Lemma no_adjacent_dup_tail a l : no_adjacent_dup (a :: l) → no_adjacent_dup l.
Proof. simpl. tauto. Qed.

Lemma no_adjacent_dup_drop n l : no_adjacent_dup l → no_adjacent_dup (drop n l).
Proof.
  revert l. induction n as [|n IH]; intros [|a l] H; try done.
  simpl. apply IH. by apply no_adjacent_dup_tail in H.
Qed.

Lemma flush_toolHistory now r : toolHistory (_flush now r).1 = toolHistory r.
Proof.
  unfold _flush. destruct (isDeleted r); [done|].
  by destruct (negb (truthy_num _)).
Qed.

Lemma report_history_ok toolName now r :
  history_ok r → history_ok (report toolName now r).1.
Proof.
  intros [Hlen Hdup]. unfold report.
  destruct (isDeleted r); [done|].
  destruct (negb (truthy_str (chatId r))); [done|].
  case_bool_decide as Hlast; [done|].
  set (h := toolHistory r ++ [label_of toolName]).
  assert (no_adjacent_dup h) as Hh by (by apply no_adjacent_dup_snoc).
  assert (length h = S (length (toolHistory r))) as Hhl
    by (unfold h; rewrite length_app; simpl; lia).
  set (r1 := if bool_decide (_ < _)%nat then _ else _).
  assert (history_ok r1) as [Hlen1 Hdup1].
  { subst r1. simpl. fold h. case_bool_decide; split; simpl.
    - unfold slice_last. rewrite length_drop. lia.
    - by apply no_adjacent_dup_drop.
    - lia.
    - done. }
  destruct (MIN_UPDATE_INTERVAL <=? _).
  - unfold history_ok. by rewrite flush_toolHistory.
  - by destruct (throttleTimer _).
Qed.

Lemma step_history_ok now e r : history_ok r → history_ok (step now e r).1.
Proof.
  intros H. destruct e as [toolName| |result|]; simpl.
  - by apply report_history_ok.
  - unfold timer_callback. destruct (throttleTimer r); [|done].
    destruct (negb _); [|done]. unfold history_ok. by rewrite flush_toolHistory.
  - unfold sendMessage_resolved. destruct result as [resp|]; [|done].
    by destruct (ok resp).
  - unfold cleanup. simpl. destruct (throttleTimer r); simpl;
      by destruct (truthy_num _ && _).
Qed.

Lemma run_history_ok evs r : history_ok r → history_ok (run evs r).1.
Proof.
  revert r. induction evs as [|[now e] evs IH]; intros r H; simpl; [done|].
  pose proof (step_history_ok now e r H) as H1.
  destruct (step now e r) as [r1 c1]. specialize (IH r1 H1).
  by destruct (run evs r1) as [r2 c2].
Qed.

End progress_history.

(** C6.  After any sequence of [report] calls (interleaved at will with
    the timer firing, [sendMessage] resolving and [cleanup]), whatever the
    tool names and clock readings, the tool history has at most 6 entries
    and no two consecutive entries are equal. *)
Theorem toolHistory_bounded_without_repeats
    (chatId : option string) (evs : list (Z * Progress.Event)) :
  let r := (Progress.run evs (Progress.new chatId)).1 in
  (length (Progress.toolHistory r) ≤ 6)%nat
  ∧ no_adjacent_dup (Progress.toolHistory r).
Proof.
  apply run_history_ok. split; simpl; [lia | done].
Qed.

Section progress_throttle.
Import Progress.

Lemma flush_times_app c1 c2 : flush_times (c1 ++ c2) = flush_times c1 ++ flush_times c2.
Proof. unfold flush_times. by rewrite filter_app, fmap_app. Qed.

(** A [_flush] on a live reporter issues one send-or-edit stamped [now]. *)
Lemma flush_live now r :
  isDeleted r = false →
  let r' := (_flush now r).1 in
  flush_times (_flush now r).2 = [now]
  ∧ lastUpdateAt r' = now ∧ pendingLabel r' = None
  ∧ throttleTimer r' = throttleTimer r ∧ isDeleted r' = false.
Proof.
  intros Hd. unfold _flush. rewrite Hd. simpl.
  destruct (negb (truthy_num (messageId r))); simpl; by rewrite Hd.
Qed.

(** The armed timer, when it fires on a live reporter, performs exactly
    one flush, whatever is pending, and disarms itself. *)
Lemma timer_callback_flushes_once now due r :
  throttleTimer r = Some due → isDeleted r = false →
  let r' := (timer_callback now r).1 in
  flush_times (timer_callback now r).2 = [now]
  ∧ throttleTimer r' = None ∧ pendingLabel r' = None ∧ lastUpdateAt r' = now.
Proof.
  intros Ht Hd. unfold timer_callback. rewrite Ht. simpl. rewrite Hd. simpl.
  destruct (flush_live now (set_throttleTimer None r) Hd) as (H1 & H2 & H3 & H4 & _).
  by repeat split.
Qed.

(** A report that arrives inside the interval is remembered as pending
    and leaves a timer armed; a timer armed by it is due one interval
    after the last flush. *)
Lemma report_inside_interval toolName now r :
  isDeleted r = false → truthy_str (chatId r) = true →
  last (toolHistory r) ≠ Some (label_of toolName) →
  now - lastUpdateAt r < MIN_UPDATE_INTERVAL →
  let r' := (report toolName now r).1 in
  (report toolName now r).2 = []
  ∧ pendingLabel r' = Some (label_of toolName)
  ∧ lastUpdateAt r' = lastUpdateAt r
  ∧ throttleTimer r' =
      match throttleTimer r with
      | Some due => Some due
      | None => Some (lastUpdateAt r + MIN_UPDATE_INTERVAL)
      end.
Proof.
  intros Hd Hc Hl He. unfold report. rewrite Hd, Hc. simpl.
  rewrite bool_decide_eq_false_2 by done.
  set (r1 := if bool_decide (_ < _)%nat then _ else _).
  assert (lastUpdateAt r1 = lastUpdateAt r ∧ throttleTimer r1 = throttleTimer r)
    as [HL HT] by (subst r1; by case_bool_decide).
  rewrite HL. destruct (MIN_UPDATE_INTERVAL <=? now - lastUpdateAt r) eqn:E;
    [apply Z.leb_le in E; lia|].
  simpl. rewrite HT. destruct (throttleTimer r); simpl; repeat split; try done.
  f_equal. lia.
Qed.

Lemma step_spaced t0 now e r :
  throttle_inv t0 r → t0 ≤ now →
  match e, throttleTimer r with
  | TimerFired, Some due => due ≤ now
  | Report _, Some due => now < due
  | _, _ => True
  end →
  throttle_inv now (step now e r).1
  ∧ (flush_times (step now e r).2 = []
       ∧ lastUpdateAt (step now e r).1 = lastUpdateAt r
     ∨ flush_times (step now e r).2 = [now]
       ∧ lastUpdateAt (step now e r).1 = now
       ∧ lastUpdateAt r + MIN_UPDATE_INTERVAL ≤ now).
Proof.
  intros [HL HT] Hnow Hsched. destruct e as [toolName| |result|]; simpl.
  - unfold report.
    destruct (isDeleted r) eqn:Hd; [split; [split; [simpl; lia | done] | by left]|].
    destruct (negb (truthy_str (chatId r)));
      [split; [split; [simpl; lia | done] | by left]|].
    case_bool_decide; [split; [split; [simpl; lia | done] | by left]|].
    set (r1 := if bool_decide (_ < _)%nat then _ else _).
    assert (lastUpdateAt r1 = lastUpdateAt r ∧ throttleTimer r1 = throttleTimer r
            ∧ isDeleted r1 = false)
      as (HL1 & HT1 & HD1) by (subst r1; by case_bool_decide).
    rewrite HL1. destruct (MIN_UPDATE_INTERVAL <=? now - lastUpdateAt r) eqn:E.
    + apply Z.leb_le in E.
      destruct (flush_live now r1 HD1) as (F1 & F2 & _ & F4 & _).
      split; [|right; repeat split; [done | done | lia]].
      split; [lia|]. intros due. rewrite F4, HT1. intros Hdue.
      rewrite Hdue in Hsched. specialize (HT _ Hdue). lia.
    + apply Z.leb_gt in E. simpl. rewrite HT1.
      destruct (throttleTimer r) as [due|] eqn:Hdue; simpl.
      * split; [|by left]. split; [simpl; lia|]. simpl. rewrite HT1, HL1.
        intros d Hd'. by apply HT.
      * split; [|by left]. split; [simpl; lia|]. simpl. rewrite HL1.
        intros ? [= <-]. lia.
  - unfold timer_callback. destruct (throttleTimer r) as [due|] eqn:Hdue.
    + simpl. destruct (isDeleted r) eqn:Hd; simpl.
      * split; [|by left]. split; [simpl; lia | done].
      * destruct (flush_live now (set_throttleTimer None r) Hd) as (F1 & F2 & _ & F4 & _).
        specialize (HT _ eq_refl).
        split; [|right; repeat split; [done | done | lia]].
        split; [lia|]. intros d. by rewrite F4.
    + simpl. split; [|by left]. split; [lia|]. intros d. by rewrite Hdue.
  - assert (lastUpdateAt (sendMessage_resolved result r) = lastUpdateAt r
            ∧ throttleTimer (sendMessage_resolved result r) = throttleTimer r)
      as [E1 E2].
    { unfold sendMessage_resolved.
      destruct result as [resp|]; [destruct (ok resp)|]; done. }
    split; [|by left]. split; [lia|]. intros d. rewrite E1, E2. apply HT.
  - unfold cleanup. simpl.
    assert (∀ x : ProgressReporter,
              lastUpdateAt x = lastUpdateAt r → throttleTimer x = None →
              throttle_inv now x) as Hinv.
    { intros x Hx Hx'. split; [lia|]. intros d. by rewrite Hx'. }
    destruct (throttleTimer r) eqn:Ht; simpl;
      destruct (truthy_num (messageId r) && truthy_str (chatId r)); simpl;
      (split; [by apply Hinv | by left]).
Qed.

(** Under a punctual schedule consecutive flushes are at least the
    minimum interval apart. *)
Lemma flushes_spaced_when_timer_punctual t0 evs r :
  throttle_inv t0 r → punctual t0 evs r →
  spaced (lastUpdateAt r) (flush_times (run evs r).2).
Proof.
  revert t0 r. induction evs as [|[now e] evs IH]; intros t0 r Hinv Hp; simpl.
  - done.
  - destruct Hp as (Hnow & Hsched & Hrest).
    destruct (step_spaced t0 now e r Hinv Hnow Hsched) as [Hinv' Hcase].
    specialize (IH now (step now e r).1 Hinv' Hrest).
    destruct (step now e r) as [r1 c1]. simpl in *.
    destruct (run evs r1) as [r2 c2]. simpl in *.
    rewrite flush_times_app.
    destruct Hcase as [[-> HL]|(-> & HL & Hgap)]; simpl.
    + by rewrite <- HL.
    + split; [done|]. by rewrite <- HL.
Qed.

(** From the constructor's state: every flush of a punctual schedule is at
    least the minimum interval after the one before. *)
Lemma flushes_spaced_from_start chat evs :
  punctual 0 evs (new chat) →
  spaced 0 (flush_times (run evs (new chat)).2).
Proof.
  intros Hp. apply (flushes_spaced_when_timer_punctual 0 evs (new chat)); [|done].
  split; [done|]. intros due H. discriminate H.
Qed.

End progress_throttle.

(** C5.  The timer armed by a throttled report is not cancelled when a
    later report finds the interval elapsed and flushes at once, and its
    callback flushes without looking at [pendingLabel] or [lastUpdateAt].
    Reports at 5000 (flushed), 6000 (inside the interval: pending, timer
    due at 8000) and 8002 (interval elapsed: flushed at once), then the
    timer callback running at 8005: the flushes are at 5000, 8002 and
    8005, the last two 3 ms apart.  The same happens with no delay at all
    when the third report is stamped 8000 and handled just before the
    callback: two flushes at 8000. *)
Theorem stale_timer_flushes_inside_interval :
  let r0 := Progress.new (Some "42"%string) in
  let armed := Progress.run [ (5000, Progress.Report "Bash");
                              (6000, Progress.Report "Read") ] r0 in
  let late := Progress.run [ (5000, Progress.Report "Bash");
                             (6000, Progress.Report "Read");
                             (8002, Progress.Report "Write");
                             (8005, Progress.TimerFired) ] r0 in
  let tie := Progress.run [ (5000, Progress.Report "Bash");
                            (6000, Progress.Report "Read");
                            (8000, Progress.Report "Write");
                            (8000, Progress.TimerFired) ] r0 in
  Progress.throttleTimer armed.1 = Some 8000
  ∧ Progress.pendingLabel armed.1 = Some (Progress.label_of "Read")
  ∧ Progress.flush_times late.2 = [5000; 8002; 8005]
  ∧ ¬ spaced 0 (Progress.flush_times late.2)
  ∧ Progress.flush_times tie.2 = [5000; 8000; 8000]
  ∧ ¬ spaced 0 (Progress.flush_times tie.2).
Proof.
  vm_compute. repeat split; intros H; try discriminate H.
  - destruct H as (_ & _ & H & _). apply H. reflexivity.
  - destruct H as (_ & _ & H & _). apply H. reflexivity.
Qed.

Section progress_cleanup.
Import Progress.

(** After [cleanup] every [report] leaves the reporter as it is and makes
    no call. *)
Lemma report_after_cleanup_is_noop now r toolName now' :
  report toolName now' (cleanup now r).1 = ((cleanup now r).1, []).
Proof.
  unfold cleanup. simpl.
  destruct (throttleTimer r); simpl;
    destruct (truthy_num (messageId r) && truthy_str (chatId r)); done.
Qed.

(** Nor does a timer fire after [cleanup]: it has been cleared. *)
Lemma cleanup_clears_timer now r :
  throttleTimer (cleanup now r).1 = None ∧ isDeleted (cleanup now r).1 = true.
Proof.
  unfold cleanup. simpl.
  destruct (throttleTimer r) eqn:Ht; simpl;
    destruct (truthy_num (messageId r) && truthy_str (chatId r)); done.
Qed.

(** Every [cleanup] of a reporter that holds a message id issues a
    [deleteMessage], also when the reporter has been cleaned up before. *)
Lemma cleanup_deletes_every_time now r :
  truthy_num (messageId r) = true → truthy_str (chatId r) = true →
  (cleanup now r).2 = [(now, deleteMessage (chatId r) (messageId r))]
  ∧ messageId (cleanup now r).1 = messageId r
  ∧ chatId (cleanup now r).1 = chatId r.
Proof.
  intros Hm Hc. unfold cleanup. simpl.
  destruct (throttleTimer r); simpl; rewrite Hm, Hc; done.
Qed.

End progress_cleanup.

(** C4.  [cleanup] does not look at [isDeleted] and keeps [messageId], so
    a second [cleanup] deletes the progress message a second time.  On the
    reporter alone: one report, its [sendMessage] resolving with message
    id 77, then two cleanups.  In the streaming handler: a tool call, the
    message sent, then an [error] event (first cleanup) and the response
    closing while [isComplete] is still false (second cleanup). *)
Theorem cleanup_twice_deletes_twice :
  let sent := Some {| Progress.ok := true; Progress.result_message_id := Some 77 |} in
  let tool_call :=
    {| Cli.msg_type := "stream_event";
       Cli.event := Some {| Cli.event_type := "content_block_start";
                            Cli.content_block :=
                              Some {| Cli.block_type := "tool_use";
                                      Cli.block_name := Some "Bash"%string |};
                            Cli.delta := None |} |} in
  let env := {| Streaming.requestId := "req";
                Streaming.TELEGRAM_NOTIFY_ID := Some "42"%string |} in
  let calls :=
    (Progress.run [ (10000, Progress.Report "Bash");
                    (10200, Progress.SendMessageResolved sent);
                    (20000, Progress.Cleanup);
                    (20001, Progress.Cleanup) ]
                  (Progress.new (Some "42"%string))).2 in
  let st :=
    Streaming.run env [ (10000, Sub (Cli.on_message tool_call));
                        (10200, ProgressSent sent);
                        (20000, Sub (Cli.on_error "boom"));
                        (20001, ResClose) ]
                  (Streaming.init env) in
  Progress.delete_count calls = 2%nat
  ∧ filter (λ c, Progress.is_delete c = true) calls
    = [ (20000, Progress.deleteMessage (Some "42"%string) (Some 77));
        (20001, Progress.deleteMessage (Some "42"%string) (Some 77)) ]
  ∧ Progress.delete_count (Streaming.telegram st) = 2%nat.
Proof. vm_compute. done. Qed.

(** ** Streaming handler *)

Section streaming_turns.
Import Streaming.

Lemma count_starts_app l l' :
  count_starts (l ++ l') = (count_starts l + count_starts l')%nat.
Proof. induction l as [|te l IH]; simpl; [done|]. rewrite IH. lia. Qed.

Lemma after_boundary_0 l : after_boundary 0 l = l.
Proof. by destruct l. Qed.

Lemma after_boundary_app_le n l l' :
  (n ≤ count_starts l)%nat →
  after_boundary n (l ++ l') = after_boundary n l ++ l'.
Proof.
  revert n. induction l as [|te l IH]; intros n; simpl.
  - intros Hn. assert (n = 0%nat) as -> by lia. by rewrite after_boundary_0.
  - destruct n as [|n]; [done|]. simpl.
    destruct (is_message_start te.2); intros Hn; apply IH; lia.
Qed.

Lemma after_boundary_app_gt k l l' :
  after_boundary (count_starts l + S k) (l ++ l') = after_boundary (S k) l'.
Proof.
  induction l as [|te l IH]; [done|].
  rewrite Nat.add_succ_r in IH.
  cbn [count_starts app]. destruct (is_message_start te.2) eqn:E.
  - replace (1 + count_starts l + S k)%nat with (S (S (count_starts l + k))) by lia.
    cbn [after_boundary]. by rewrite E.
  - replace (0 + count_starts l + S k)%nat with (S (count_starts l + k)) by lia.
    cbn [after_boundary]. by rewrite E.
Qed.

(** The last turn of [evs ++ [te]]: empty after a boundary, else the last
    turn of [evs] followed by [te]. *)
Lemma last_turn_snoc evs te :
  after_boundary (count_starts (evs ++ [te])) (evs ++ [te]) =
  if is_message_start te.2 then []
  else after_boundary (count_starts evs) evs ++ [te].
Proof.
  rewrite count_starts_app. simpl. destruct (is_message_start te.2) eqn:E.
  - replace (count_starts evs + (1 + 0))%nat with (count_starts evs + 1)%nat by lia.
    rewrite after_boundary_app_gt. simpl. by rewrite E.
  - replace (count_starts evs + (0 + 0))%nat with (count_starts evs) by lia.
    by apply after_boundary_app_le.
Qed.

Lemma delta_texts_snoc evs te :
  delta_texts (evs ++ [te]) = delta_texts evs ++ from_option (λ t, [t]) [] (delta_text te.2).
Proof.
  unfold delta_texts. rewrite omap_app. simpl. by destruct (delta_text te.2).
Qed.

Lemma run_app env l l' st : run env (l ++ l') st = run env l' (run env l st).
Proof.
  revert st. induction l as [|[now e] l IH]; intros st; simpl; [done|]. apply IH.
Qed.

(** Calls of the reporter's methods change nothing but the reporter and
    the log of Telegram calls. *)
Lemma with_progress_frame f st :
  let st' := with_progress f st in
  written st' = written st ∧ writableEnded st' = writableEnded st
  ∧ turnBuffer st' = turnBuffer st ∧ lastModel st' = lastModel st
  ∧ isComplete st' = isComplete st ∧ turnCount st' = turnCount st.
Proof. unfold with_progress. by destruct (f (progress st)). Qed.

Lemma on_message_frame now msg st :
  let st' := on_message now msg st in
  written st' = written st ∧ writableEnded st' = writableEnded st
  ∧ turnBuffer st' =
      (if is_message_start (Sub (Cli.on_message msg)) then [] else turnBuffer st).
Proof.
  unfold on_message, is_message_start.
  destruct (bool_decide (Cli.msg_type msg = "stream_event"%string)); simpl; [|done].
  set (st1 := if bool_decide (_ = Some "content_block_start"%string) then _ else _).
  assert (written st1 = written st ∧ writableEnded st1 = writableEnded st
          ∧ turnBuffer st1 = turnBuffer st) as (H1 & H2 & H3).
  { subst st1.
    destruct (bool_decide (_ = Some "content_block_start"%string)); [|done].
    destruct (Cli.event msg ≫= Cli.content_block) as [block|]; [|done].
    destruct (_ && _); [|done].
    destruct (with_progress_frame
                (Progress.report (default ""%string (Cli.block_name block)) now) st)
      as (? & ? & ? & _).
    done. }
  by destruct (bool_decide (_ = Some "message_start"%string)).
Qed.

(** While only such events arrive, nothing beyond the initial comment is
    written, the response stays open, and the buffer holds the non-empty
    delta texts received since the last [message_start]. *)
Lemma run_pre_result env evs :
  Forall (λ te, pre_result te.2 = true) evs →
  let st := run env evs (init env) in
  written st = [sse_ok] ∧ writableEnded st = false
  ∧ turnBuffer st =
      filter (λ t, nonempty t = true)
             (delta_texts (after_boundary (count_starts evs) evs)).
Proof.
  induction evs as [|[now e] evs IH] using rev_ind; [done|].
  rewrite Forall_app, Forall_singleton. simpl. intros [Hevs He].
  destruct (IH Hevs) as (Hw & Hend & Hbuf). clear IH.
  rewrite run_app, last_turn_snoc. cbn [run snd].
  set (st := run env evs (init env)) in *.
  assert (∀ te : Z * Event, delta_text te.2 = None →
            filter (λ t, nonempty t = true)
                   (delta_texts (after_boundary (count_starts evs) evs ++ [te]))
            = turnBuffer st) as Hsame.
  { intros te Hte. rewrite delta_texts_snoc, Hte, filter_app. simpl.
    by rewrite filter_nil, app_nil_r. }
  destruct e as [[msg|ev|mdl|r|m|code|txt]| | |result|m]; try discriminate He;
    cbn [step].
  - destruct (on_message_frame now msg st) as (H1 & H2 & H3).
    rewrite H1, H2, H3.
    destruct (is_message_start (Sub (Cli.on_message msg))); [done|].
    by rewrite Hsame.
  - cbn [is_message_start]. unfold on_content_delta.
    rewrite delta_texts_snoc, filter_app. cbn [delta_text snd from_option].
    set (t := default ""%string (Cli.delta ev ≫= Cli.text)).
    rewrite filter_cons, filter_nil.
    destruct (truthy_str (Some t)) eqn:Ht; simpl.
    + rewrite decide_True by exact Ht. by rewrite Hbuf.
    + rewrite decide_False by (unfold nonempty; congruence). by rewrite app_nil_r.
  - cbn [is_message_start]. by rewrite Hsame.
  - cbn [is_message_start]. by rewrite Hsame.
  - cbn [is_message_start].
    destruct (with_progress_frame (Progress.timer_callback now) st) as (H1 & H2 & H3 & _).
    by rewrite H1, H2, H3, Hsame.
  - cbn [is_message_start].
    destruct (with_progress_frame
                (λ p, (Progress.sendMessage_resolved result p, [])) st)
      as (H1 & H2 & H3 & _).
    by rewrite H1, H2, H3, Hsame.
Qed.

End streaming_turns.

Section streaming_result.
Import Streaming.

Lemma chunk_texts_app ws ws' : chunk_texts (ws ++ ws') = chunk_texts ws ++ chunk_texts ws'.
Proof. unfold chunk_texts. apply bind_app. Qed.

Lemma concat_strings_nonempty l :
  concat_strings (filter (λ t, nonempty t = true) l) = concat_strings l.
Proof.
  induction l as [|t l IH]; [done|].
  rewrite filter_cons. destruct (decide (nonempty t = true)) as [H|H]; simpl.
  - by rewrite IH.
  - rewrite IH. destruct t; [done|]. by destruct H.
Qed.

(** The loop of the [result] listener writes one chunk per buffered text,
    in order, and nothing else. *)
Lemma write_buffer_spec env now isFirst buf st :
  let st' := write_buffer env now isFirst buf st in
  chunk_texts (written st') = chunk_texts (written st) ++ buf
  ∧ filter (λ w, is_sse_error w = true) (written st')
    = filter (λ w, is_sse_error w = true) (written st)
  ∧ writableEnded st' = writableEnded st
  ∧ lastModel st' = lastModel st
  ∧ (buf = [] → st' = st).
Proof.
  revert isFirst st. induction buf as [|t buf IH]; intros isFirst st; simpl.
  - by rewrite app_nil_r.
  - destruct (IH false (write (sse_chunk (content_chunk env now (lastModel st) isFirst t)) st))
      as (H1 & H2 & H3 & H4 & _).
    rewrite H1, H2, H3, H4. simpl.
    rewrite chunk_texts_app, filter_app, <- app_assoc. simpl.
    rewrite filter_cons, decide_False by done.
    rewrite filter_nil, app_nil_r. done.
Qed.

(** The [result] listener on an open response: the buffered texts, the
    closing chunk, the end marker. *)
Lemma on_result_open env now st :
  writableEnded st = false →
  let st' := on_result env now st in
  chunk_texts (written st') = chunk_texts (written st) ++ turnBuffer st
  ∧ filter (λ w, is_sse_error w = true) (written st')
    = filter (λ w, is_sse_error w = true) (written st)
  ∧ writableEnded st' = true
  ∧ turnBuffer st' = []
  ∧ (turnBuffer st = [] →
     written st' = written st ++
       [ sse_chunk (Adapter.createDoneChunk (requestId env) (Some (lastModel st)) now);
         sse_done ]).
Proof.
  intros Hopen. unfold on_result.
  destruct (with_progress_frame (Progress.cleanup now) (set_isComplete true st))
    as (Hw & He & Hb & Hm & _).
  set (st1 := with_progress (Progress.cleanup now) (set_isComplete true st)) in *.
  simpl in Hw, He, Hb, Hm. rewrite He, Hopen. simpl.
  destruct (write_buffer_spec env now true (turnBuffer st1) st1)
    as (H1 & H2 & H3 & H4 & H5).
  rewrite H4, Hm.
  rewrite !chunk_texts_app, !filter_app, H1, H2, Hw, Hb. simpl.
  rewrite !app_nil_r.
  repeat split; try done.
  intros Hnil. rewrite Hnil. simpl. by rewrite Hw, <- app_assoc.
Qed.

End streaming_result.

(** C1.  Let a sequence of events that can precede the result (messages,
    content deltas, assistant messages) contain [N] [message_start]
    boundaries and be followed by the terminal [result].  The chunks
    written to the client carry exactly the non-empty delta texts received
    after the [N]-th boundary, in order, so their concatenation is the
    concatenation of the delta texts after that boundary; the deltas
    before it appear nowhere, no error is written, and the response is
    ended. *)
Theorem final_turn_only_reaches_client
    (env : Streaming.Env) (evs : list (Z * Event)) (now : Z) (r : Cli.ClaudeCliResult) :
  Forall (λ te, pre_result te.2 = true) evs →
  let N := count_starts evs in
  let final_turn := delta_texts (after_boundary N evs) in
  let st := Streaming.run env (evs ++ [(now, Sub (Cli.on_result r))])
                          (Streaming.init env) in
  chunk_texts (Streaming.written st) = filter (λ t, nonempty t = true) final_turn
  ∧ concat_strings (chunk_texts (Streaming.written st)) = concat_strings final_turn
  ∧ filter (λ w, is_sse_error w = true) (Streaming.written st) = []
  ∧ Streaming.writableEnded st = true.
Proof.
  intros Hevs N final_turn st. subst N final_turn st.
  destruct (run_pre_result env evs Hevs) as (Hw & Hopen & Hbuf).
  rewrite run_app. cbn [Streaming.run Streaming.step].
  destruct (on_result_open env now _ Hopen) as (H1 & H2 & H3 & _).
  rewrite H1, H2, H3, Hw, Hbuf. simpl.
  rewrite concat_strings_nonempty.
  repeat split; try done.
Qed.

(** C7.  When the [result] arrives while the buffer is empty, the client
    has been written the initial comment, then one closing chunk whose
    [finish_reason] is "stop" and which carries no content, then the
    [DONE] marker: no content chunk and no error, and the response is
    ended. *)
Theorem result_with_empty_buffer_is_empty_reply
    (env : Streaming.Env) (evs : list (Z * Event)) (now : Z) (r : Cli.ClaudeCliResult) :
  Forall (λ te, pre_result te.2 = true) evs →
  Streaming.turnBuffer (Streaming.run env evs (Streaming.init env)) = [] →
  let before := Streaming.run env evs (Streaming.init env) in
  let done_chunk :=
    Adapter.createDoneChunk (Streaming.requestId env)
                            (Some (Streaming.lastModel before)) now in
  let st := Streaming.run env (evs ++ [(now, Sub (Cli.on_result r))])
                          (Streaming.init env) in
  Streaming.written st
    = [ Streaming.sse_ok; Streaming.sse_chunk done_chunk; Streaming.sse_done ]
  ∧ Adapter.choices done_chunk
    = [ {| Adapter.index := 0;
           Adapter.delta := {| Adapter.role := None; Adapter.content := None |};
           Adapter.finish_reason := Some "stop"%string |} ]
  ∧ chunk_texts (Streaming.written st) = []
  ∧ Streaming.writableEnded st = true.
Proof.
  intros Hevs Hnil before done_chunk st. subst before done_chunk st.
  destruct (run_pre_result env evs Hevs) as (Hw & Hopen & _).
  rewrite run_app. cbn [Streaming.run Streaming.step].
  destruct (on_result_open env now _ Hopen) as (H1 & _ & H3 & _ & H5).
  rewrite H1, H3, (H5 Hnil), Hw, Hnil. done.
Qed.

(** The scenario of the specification: [message_start, delta "A",
    message_start, delta "B", result]; the client receives only "B". *)
Lemma final_turn_only_reaches_client_AB :
  let evs := [ (1, message_start_event); (2, content_delta_event "A");
               (3, message_start_event); (4, content_delta_event "B") ] in
  let st := Streaming.run example_env (evs ++ [(5, result_event "B")])
                          (Streaming.init example_env) in
  count_starts evs = 2%nat
  ∧ chunk_texts (Streaming.written st) = ["B"%string]
  ∧ concat_strings (chunk_texts (Streaming.written st)) = "B"%string.
Proof.
  intros evs st. subst st. unfold result_event.
  destruct (final_turn_only_reaches_client example_env evs 5
              {| Cli.result := "B"; Cli.usage := None; Cli.modelUsage := None |})
    as (H1 & H2 & _).
  - subst evs. repeat constructor.
  - split; [reflexivity|]. split.
    + rewrite H1. vm_compute. reflexivity.
    + rewrite H2. vm_compute. reflexivity.
Defined.

(** A run whose last turn has no delta: [message_start, delta "A",
    message_start, result]. *)
Lemma result_with_empty_buffer_is_empty_reply_A :
  let evs := [ (1, message_start_event); (2, content_delta_event "A");
               (3, message_start_event) ] in
  let st := Streaming.run example_env (evs ++ [(5000, result_event "")])
                          (Streaming.init example_env) in
  Streaming.written st
  = [ Streaming.sse_ok;
      Streaming.sse_chunk (Adapter.createDoneChunk "req" (Some "claude-sonnet-4"%string) 5000);
      Streaming.sse_done ]
  ∧ chunk_texts (Streaming.written st) = [].
Proof.
  intros evs st. subst st. unfold result_event.
  destruct (result_with_empty_buffer_is_empty_reply example_env evs 5000
              {| Cli.result := ""; Cli.usage := None; Cli.modelUsage := None |})
    as (H1 & _ & H3 & _).
  - subst evs. repeat constructor.
  - vm_compute. reflexivity.
  - split; [exact H1 | exact H3].
Defined.

(** ** Non-streaming handler *)

Section non_streaming.
Import NonStreaming.

Lemma run_snoc env evs now e st :
  run env (evs ++ [(now, e)]) st = step env now e (run env evs st).
Proof.
  revert st. induction evs as [|[t e'] evs IH]; intros st; simpl; [done|]. apply IH.
Qed.

Lemma json_finalResult status b st : finalResult (json status b st) = finalResult st.
Proof. unfold json. by destruct (sent st). Qed.

Lemma step_finalResult env now e st :
  finalResult (step env now e st) =
  match e with
  | Sub (Cli.on_result r) => Some r
  | _ => finalResult st
  end.
Proof.
  destruct e as [[msg|ev|mdl|r|m|code|txt]| | |result|m]; simpl; try done.
  - unfold on_error. rewrite json_finalResult.
    destruct (includes _ _); [|done]. unfold notifyTelegram. by destruct (negb _).
  - unfold on_close. destruct (finalResult st) eqn:E.
    + by rewrite json_finalResult.
    + destruct (negb _); [by rewrite json_finalResult | done].
  - apply json_finalResult.
Qed.

(** [finalResult] is the last [result] received. *)
Lemma run_finalResult env evs :
  finalResult (run env evs init) = last_result evs.
Proof.
  induction evs as [|[now e] evs IH] using rev_ind; [done|].
  rewrite run_snoc, step_finalResult. unfold last_result in *.
  rewrite omap_app. simpl.
  destruct e as [[msg|ev|mdl|r|m|code|txt]| | |result|m]; simpl;
    rewrite ?app_nil_r; try done.
  by rewrite last_snoc.
Qed.

(** What the client has been sent once the [close] listener has run. *)
Lemma on_close_sent env now code st :
  sent (on_close env now code st) =
  match sent st, finalResult st with
  | Some resp, _ => Some resp
  | None, Some r =>
      Some {| status := 200;
              body := completion
                        (Adapter.cliResultToOpenai r (Streaming.requestId env) now) |}
  | None, None => Some (exited_without_response code)
  end.
Proof.
  unfold on_close, headersSent, json.
  destruct (finalResult st) as [r|], (sent st) as [resp|] eqn:E; simpl; done.
Qed.

End non_streaming.

(** C10, as stated, fails.  An [error] event answers the request with its
    own message; when the process then closes, no [result] has been
    received, yet the response is that error and not the "exited without
    response" one. *)
Lemma close_after_error_keeps_error_response :
  let evs := [ (1000, Sub (Cli.on_error "boom")) ] in
  let st := NonStreaming.run example_env (evs ++ [(2000, Sub (Cli.on_close (Some 1)))])
                             NonStreaming.init in
  last_result evs = None
  ∧ NonStreaming.sent st
    = Some {| NonStreaming.status := 500;
              NonStreaming.body := NonStreaming.server_error "boom" |}
  ∧ NonStreaming.sent st ≠ Some (NonStreaming.exited_without_response (Some 1)).
Proof. vm_compute. repeat split. intros H. discriminate H. Qed.

(** C10, amended.  Let the process close after the events [evs], and let
    no response have been sent when it does (no [error] event and no
    failure to start has answered the request).  If a [result] was
    received, the client receives the 200 completion built from the last
    one, whatever the exit code; the 500 "exited without response" error
    is sent if and only if no [result] was received.  If a response has
    been sent already, it stands. *)
Theorem close_answers_from_result_or_reports_exit
    (env : Streaming.Env) (evs : list (Z * Event)) (now : Z) (code : option Z) :
  let st := NonStreaming.run env evs NonStreaming.init in
  let st' := NonStreaming.run env (evs ++ [(now, Sub (Cli.on_close code))])
                              NonStreaming.init in
  NonStreaming.finalResult st = last_result evs
  ∧ (NonStreaming.sent st = None →
     ∀ r, last_result evs = Some r →
          NonStreaming.sent st'
          = Some {| NonStreaming.status := 200;
                    NonStreaming.body :=
                      NonStreaming.completion
                        (Adapter.cliResultToOpenai r (Streaming.requestId env) now) |})
  ∧ (NonStreaming.sent st = None →
     (NonStreaming.sent st' = Some (NonStreaming.exited_without_response code)
      ↔ last_result evs = None))
  ∧ (∀ resp, NonStreaming.sent st = Some resp → NonStreaming.sent st' = Some resp).
Proof.
  intros st st'. subst st st'. rewrite run_snoc. cbn [NonStreaming.step].
  pose proof (run_finalResult env evs) as Hfin.
  set (st := NonStreaming.run env evs NonStreaming.init) in *.
  rewrite on_close_sent, Hfin.
  split; [done|]. split; [|split].
  - intros -> r ->. done.
  - intros ->. destruct (last_result evs) as [r|].
    + split; intros H; discriminate H.
    + done.
  - intros resp ->. done.
Qed.

(** ** Request handler: resume failure *)

Section resume_failure.

Lemma routes_run_frame env evs r :
  Routes.spawned (Routes.run env evs r) = Routes.spawned r
  ∧ Routes.conversationId (Routes.run env evs r) = Routes.conversationId r
  ∧ Routes.hasExistingSession (Routes.run env evs r) = Routes.hasExistingSession r
  ∧ Routes.handler (Routes.run env evs r)
    = match Routes.handler r with
      | inl st => inl (Streaming.run env evs st)
      | inr st => inr (NonStreaming.run env evs st)
      end.
Proof.
  revert r. induction evs as [|[now e] evs IH]; intros r; simpl.
  - by destruct (Routes.handler r).
  - destruct (IH (Routes.step env now e r)) as (H1 & H2 & H3 & H4).
    rewrite H1, H2, H3, H4. simpl. by destruct (Routes.handler r).
Qed.

Lemma on_resume_failed_idem conv s :
  Routes.on_resume_failed conv (Routes.on_resume_failed conv s)
  = Routes.on_resume_failed conv s.
Proof.
  unfold Routes.on_resume_failed. destruct (truthy_str conv); [|done].
  pose proof (delete_gone (default ""%string conv) s) as Hgone.
  set (s' := (Session.delete (default ""%string conv) s).2) in *.
  unfold Session.delete at 1. by rewrite Hgone.
Qed.

(** The store after a run: the [resume_failed] listener has run once if
    the signal was emitted at all. *)
Lemma routes_run_store env evs r :
  Routes.store (Routes.run env evs r)
  = if existsb (λ te, is_resume_failed te.2) evs
    then Routes.on_resume_failed (Routes.conversationId r) (Routes.store r)
    else Routes.store r.
Proof.
  revert r. induction evs as [|[now e] evs IH]; intros r; simpl; [done|].
  rewrite IH. simpl.
  destruct (is_resume_failed e) eqn:He; simpl.
  - destruct e as [[msg|ev|mdl|res|m|code|txt]| | |result|m]; try discriminate He.
    destruct (existsb _ evs); [apply on_resume_failed_idem | done].
  - by destruct e as [[msg|ev|mdl|res|m|code|txt]| | |result|m]; try discriminate He.
Qed.

Lemma existsb_resume_failed pre t txt post rest :
  existsb (λ te : Z * Event, is_resume_failed te.2)
          ((pre ++ [(t, Sub (Cli.on_resume_failed txt))] ++ post) ++ rest) = true.
Proof. rewrite !existsb_app. simpl. by rewrite orb_true_r. Qed.

Lemma streaming_run_incomplete env evs :
  Forall (λ te, pre_result te.2 = true) evs →
  Streaming.isComplete (Streaming.run env evs (Streaming.init env)) = false.
Proof.
  induction evs as [|[now e] evs IH] using rev_ind; [done|].
  rewrite Forall_app, Forall_singleton. simpl. intros [Hevs He].
  rewrite run_app. cbn [Streaming.run]. specialize (IH Hevs).
  set (st := Streaming.run env evs (Streaming.init env)) in *.
  destruct e as [[msg|ev|mdl|r|m|code|txt]| | |result|m]; try discriminate He;
    cbn [Streaming.step]; try done.
  - unfold Streaming.on_message.
    destruct (negb _); [done|].
    set (st1 := if bool_decide (_ = Some "content_block_start"%string) then _ else _).
    assert (Streaming.isComplete st1 = false) as H1.
    { subst st1.
      destruct (bool_decide (_ = Some "content_block_start"%string)); [|done].
      destruct (Cli.event msg ≫= Cli.content_block) as [block|]; [|done].
      destruct (_ && _); [|done].
      destruct (with_progress_frame
                  (Progress.report (default ""%string (Cli.block_name block)) now) st)
        as (_ & _ & _ & _ & H & _).
      by rewrite H. }
    by destruct (bool_decide (_ = Some "message_start"%string)).
  - unfold Streaming.on_content_delta. by destruct (truthy_str _).
  - destruct (with_progress_frame (Progress.timer_callback now) st)
      as (_ & _ & _ & _ & H & _).
    by rewrite H.
Qed.

(** A failure event on an open, incomplete response that has written
    nothing but the initial comment: the error is written and the response
    ended. *)
Lemma streaming_failure_surfaces env now e st :
  failure e = true →
  Streaming.written st = [Streaming.sse_ok] →
  Streaming.writableEnded st = false →
  Streaming.isComplete st = false →
  error_surfaced (inl (Streaming.step env now e st)).
Proof.
  intros He Hw Hopen Hinc.
  destruct e as [[msg|ev|mdl|r|m|code|txt]| | |result|m]; try discriminate He;
    cbn [Streaming.step error_surfaced].
  - unfold Streaming.on_error.
    destruct (with_progress_frame (Progress.cleanup now) st) as (H1 & H2 & _).
    set (st1 := Streaming.with_progress (Progress.cleanup now) st) in *.
    set (st2 := if includes _ _ then _ else _).
    assert (Streaming.written st2 = [Streaming.sse_ok]
            ∧ Streaming.writableEnded st2 = false) as [H3 H4].
    { subst st2. destruct (includes _ _); [|by rewrite H1, H2].
      unfold Streaming.notifyTelegram. destruct (negb _); simpl; by rewrite H1, H2. }
    rewrite H4. simpl. rewrite H3. split; [done|]. split; [|done].
    exists m. set_solver.
  - simpl in He. unfold Streaming.on_close. rewrite Hopen, Hinc, He. simpl.
    rewrite Hw. split; [done|]. split; [|done].
    eexists. apply list_elem_of_further, list_elem_of_here.
Qed.

Lemma non_streaming_ignores env evs st :
  Forall (λ te, pre_result te.2 = true) evs →
  NonStreaming.run env evs st = st.
Proof.
  revert st. induction evs as [|[now e] evs IH]; intros st; [done|].
  rewrite Forall_cons. simpl. intros [He Hevs].
  destruct e as [[msg|ev|mdl|r|m|code|txt]| | |result|m]; try discriminate He;
    simpl; by apply IH.
Qed.

Lemma non_streaming_failure_surfaces env now e :
  failure e = true →
  error_surfaced (inr (NonStreaming.step env now e NonStreaming.init)).
Proof.
  intros He.
  destruct e as [[msg|ev|mdl|r|m|code|txt]| | |result|m]; try discriminate He;
    cbn [NonStreaming.step error_surfaced].
  - exists m. unfold NonStreaming.on_error.
    destruct (includes _ _); [|done].
    unfold NonStreaming.notifyTelegram. by destruct (negb _).
  - eexists. rewrite on_close_sent. done.
Qed.

End resume_failure.

(** C8.  A request resumes the stored session of its conversation, and
    the subprocess signals [resume_failed] and then fails without a
    result.  The mapping of the conversation is deleted and the session
    document rewritten without it; the subprocess is started once and not
    again; the response of the current request is an error; and the next
    request of the conversation finds no session, creates one with a new
    id and starts the CLI with [sessionId], not [resumeSessionId]. *)
Theorem resume_failure_invalidates_session_and_fails_request
    (env : Streaming.Env) (body : Routes.RequestBody)
    (cli_model : string) (systemPrompt : option string) (now : Z) (uuid : string)
    (s : Session.SessionManager) (cid : string) (m : Session.SessionMapping)
    (evs : list (Z * Event)) :
  valid_messages body = true →
  Routes.user body = Some cid →
  truthy_str (Some cid) = true →
  Session.sessions s !! cid = Some m →
  resume_failure_emission evs →
  ∃ r0,
    Routes.handleChatCompletions env body cli_model systemPrompt now uuid s
      = Routes.in_flight r0
    ∧ Routes.hasExistingSession r0 = true
    ∧ Routes.spawned r0
      = [ Routes.build_subOpts cli_model systemPrompt true
            (Some (Session.claudeSessionId m)) ]
    ∧ let r := Routes.run env evs r0 in
      Session.sessions (Routes.store r) !! cid = None
      ∧ Session.written (Routes.store r)
        = Session.written (Routes.store r0) ++ [Session.sessions (Routes.store r)]
      ∧ Routes.spawned r = Routes.spawned r0
      ∧ error_surfaced (Routes.handler r)
      ∧ ∀ body' cli_model' systemPrompt' now' uuid',
          valid_messages body' = true →
          Routes.user body' = Some cid →
          ∃ r1,
            Routes.handleChatCompletions env body' cli_model' systemPrompt' now' uuid'
                                         (Routes.store r)
              = Routes.in_flight r1
            ∧ Routes.hasExistingSession r1 = false
            ∧ Routes.spawned r1
              = [ Routes.build_subOpts cli_model' systemPrompt' false (Some uuid') ]
            ∧ Session.claudeSessionId <$> Session.sessions (Routes.store r1) !! cid
              = Some uuid'.
Proof.
  intros Hvalid Huser Hcid Hm Hevs.
  unfold Routes.handleChatCompletions.
  unfold valid_messages in Hvalid.
  destruct (Routes.messages body) as [[|x xs]|]; try discriminate Hvalid.
  unfold Routes.session_setup. rewrite Huser, Hcid. simpl.
  unfold Session.get. rewrite Hm.
  eexists. split; [reflexivity|]. simpl. split; [done|]. split; [done|].
  set (r0 := {| Routes.store := _ |}).
  destruct (routes_run_frame env evs r0) as (Hsp & _ & _ & Hh).
  pose proof (routes_run_store env evs r0) as Hst.
  destruct Hevs as [pre t txt post tend ending Hpre Hpost Hfail].
  rewrite existsb_resume_failed in Hst.
  set (r := Routes.run env _ r0) in *.
  assert (Session.sessions (Routes.store r0) !! cid = Some
            {| Session.conversationId := Session.conversationId m;
               Session.claudeSessionId := Session.claudeSessionId m;
               Session.createdAt := Session.createdAt m;
               Session.lastUsedAt := now;
               Session.model := Session.model m;
               Session.messageCount := Some (or_zero (Session.messageCount m) + 1) |})
    as Hstored by (simpl; apply lookup_insert_eq).
  assert (Routes.store r = (Session.delete cid (Routes.store r0)).2) as Hdel.
  { rewrite Hst. unfold Routes.on_resume_failed.
    change (Routes.conversationId r0) with (Some cid). by rewrite Hcid. }
  assert (Session.sessions (Routes.store r) !! cid = None) as Hgone
    by (rewrite Hdel; apply delete_gone).
  split; [done|]. split.
  { rewrite Hdel. unfold Session.delete. by rewrite Hstored. }
  split; [done|]. split.
  - assert (Forall (λ te : Z * Event, pre_result te.2 = true)
                   (pre ++ [(t, Sub (Cli.on_resume_failed txt))] ++ post)) as Hquiet.
    { rewrite !Forall_app, Forall_singleton. done. }
    rewrite Hh. subst r0. cbn [Routes.handler].
    set (quiet := pre ++ [(t, Sub (Cli.on_resume_failed txt))] ++ post) in *.
    destruct (Routes.stream body).
    + rewrite run_app. cbn [Streaming.run].
      destruct (run_pre_result env _ Hquiet) as (Hw & Hopen & _).
      apply streaming_failure_surfaces; try done.
      by apply streaming_run_incomplete.
    + rewrite run_snoc, non_streaming_ignores by done.
      by apply non_streaming_failure_surfaces.
  - intros body' cli_model' systemPrompt' now' uuid' Hvalid' Huser'.
    unfold Routes.handleChatCompletions. unfold valid_messages in Hvalid'.
    destruct (Routes.messages body') as [[|x' xs']|]; try discriminate Hvalid'.
    unfold Routes.session_setup. rewrite Huser', Hcid. simpl.
    unfold Session.get. rewrite Hgone.
    rewrite getOrCreate_new by done.
    eexists. split; [reflexivity|]. simpl. split; [done|]. split; [done|].
    by rewrite lookup_insert_eq.
Qed.

(** The session of "c1" is stored; a streaming request resumes it, the
    subprocess signals [resume_failed] and exits with code 1. *)
Lemma resume_failure_invalidates_session_and_fails_request_c1 :
  let s := (Session.getOrCreate "c1" None 1000 "uuid-a" Session.empty).2 in
  let body := {| Routes.messages := Some ["hello"%string]; Routes.stream := true;
                 Routes.user := Some "c1"%string; Routes.model := None |} in
  let evs := [ (2100, Sub (Cli.on_resume_failed "No conversation found"));
               (2200, Sub (Cli.on_close (Some 1))) ] in
  ∃ r0,
    Routes.handleChatCompletions example_env body "sonnet" None 2000 "uuid-b" s
      = Routes.in_flight r0
    ∧ Session.sessions (Routes.store (Routes.run example_env evs r0)) !! "c1"%string = None
    ∧ error_surfaced (Routes.handler (Routes.run example_env evs r0)).
Proof.
  intros s body evs.
  destruct (resume_failure_invalidates_session_and_fails_request
              example_env body "sonnet" None 2000 "uuid-b" s "c1"
              {| Session.conversationId := "c1"; Session.claudeSessionId := "uuid-a";
                 Session.createdAt := 1000; Session.lastUsedAt := 1000;
                 Session.model := "sonnet"; Session.messageCount := None |}
              evs)
    as (r0 & H0 & _ & _ & Hgone & _ & _ & Herr & _).
  - reflexivity.
  - reflexivity.
  - reflexivity.
  - vm_compute. reflexivity.
  - apply (resume_failure_run [] 2100 "No conversation found" [] 2200
             (Sub (Cli.on_close (Some 1)))); [constructor | constructor | reflexivity].
  - exists r0. split; [exact H0|]. split; [exact Hgone | exact Herr].
Defined.

(** * Further properties *)

(** ** Session manager: sweep, removal, loading, persistence *)

Section session_more.
Import Session.

(** The sweep, by lookups and by sizes, when the map swept over is part
    of the map deleted from. *)
Lemma cleanup_fold_count cutoff (m0 m : gmap string SessionMapping) (n0 : Z) :
  m ⊆ m0 →
  let r := map_fold (cleanup_visit cutoff) (m0, n0) m in
  (∀ k, r.1 !! k =
        match m !! k with
        | Some v => if lastUsedAt v <? cutoff then None else m0 !! k
        | None => m0 !! k
        end)
  ∧ Z.of_nat (size r.1) + (r.2 - n0) = Z.of_nat (size m0).
Proof.
  apply (map_fold_weak_ind
           (λ r m, m ⊆ m0 →
                   (∀ k, r.1 !! k =
                         match m !! k with
                         | Some v => if lastUsedAt v <? cutoff then None else m0 !! k
                         | None => m0 !! k
                         end)
                   ∧ Z.of_nat (size r.1) + (r.2 - n0) = Z.of_nat (size m0))).
  - intros _. simpl. split; [intros k; by rewrite lookup_empty | lia].
  - intros i x m' r Hi IH Hsub.
    assert (m' ⊆ m0) as Hsub'.
    { etrans; [|exact Hsub]. by apply insert_subseteq. }
    destruct (IH Hsub') as (Hlk & Hsz).
    assert (m0 !! i = Some x) as Hm0.
    { apply (lookup_weaken (<[i:=x]> m') m0 i x); [apply lookup_insert_eq | done]. }
    unfold cleanup_visit. destruct (lastUsedAt x <? cutoff) eqn:Hx; simpl.
    + split.
      * intros k. destruct (decide (i = k)) as [->|Hne].
        -- by rewrite lookup_delete_eq, lookup_insert_eq, Hx.
        -- rewrite lookup_delete_ne, lookup_insert_ne by done. apply Hlk.
      * assert (r.1 !! i = Some x) as Hri by (by rewrite Hlk, Hi).
        pose proof (map_size_delete_Some i r.1 (mk_is_Some _ _ Hri)) as Hd.
        assert (size r.1 ≠ 0%nat) as Hpos.
        { intros H0. apply map_size_empty_inv in H0. rewrite H0 in Hri.
          by rewrite lookup_empty in Hri. }
        lia.
    + split; [|done].
      intros k. destruct (decide (i = k)) as [->|Hne].
      * by rewrite lookup_insert_eq, Hx, Hlk, Hi.
      * rewrite lookup_insert_ne by done. apply Hlk.
Qed.

Lemma cleanup_sessions now s :
  sessions (cleanup now s).2
  = (map_fold (cleanup_visit (now - SESSION_TTL_MS)) (sessions s, 0) (sessions s)).1
  ∧ (cleanup now s).1
    = (map_fold (cleanup_visit (now - SESSION_TTL_MS)) (sessions s, 0) (sessions s)).2.
Proof.
  unfold cleanup. destruct (map_fold _ _ _) as [m removed]. simpl.
  by destruct (0 <? removed).
Qed.

End session_more.

(** X1.  [cleanup] keeps exactly the sessions used within the TTL, an
    entry last used exactly one TTL ago included, each as it was; the
    number it returns is the number of entries removed. *)
Theorem cleanup_removes_exactly_the_expired
    (now : Z) (s : Session.SessionManager) :
  let r := Session.cleanup now s in
  (∀ k v, Session.sessions r.2 !! k = Some v
          ↔ Session.sessions s !! k = Some v
            ∧ now - Session.SESSION_TTL_MS ≤ Session.lastUsedAt v)
  ∧ r.1 = Z.of_nat (size (Session.sessions s)) - Z.of_nat (size (Session.sessions r.2))
  ∧ 0 ≤ r.1.
Proof.
  intros r. subst r. destruct (cleanup_sessions now s) as [-> ->].
  destruct (cleanup_fold_count (now - Session.SESSION_TTL_MS)
              (Session.sessions s) (Session.sessions s) 0 (reflexivity _))
    as (Hlk & Hsz).
  destruct (cleanup_fold_spec (now - Session.SESSION_TTL_MS)
              (Session.sessions s) (Session.sessions s) 0) as (_ & Hle & _).
  simpl in *. split; [|split; lia].
  intros k v. rewrite Hlk.
  destruct (Session.sessions s !! k) as [w|] eqn:Hk;
    [|split; [done | by intros [? _]]].
  destruct (Session.lastUsedAt w <? now - Session.SESSION_TTL_MS) eqn:Hw.
  - apply Z.ltb_lt in Hw. split; [done|]. intros [[= ->] ?]. lia.
  - apply Z.ltb_ge in Hw. split; [intros [= ->]; done | by intros [? _]].
Qed.

(** X2.  No change of the conversations in memory goes unsaved.  From
    the loaded state on, whatever operations follow, the document of the
    last [save()] call (what [load] read, before the first call) and the
    map in memory hold the same conversations, and each conversation has
    the same provider session id (and conversation id, creation time) in
    both: every operation that adds or removes a mapping calls [save]
    after the change, and those that call none change [lastUsedAt] and
    [model] only. *)
Theorem last_saved_document_tracks_sessions
    (disk : option (gmap string Session.SessionMapping)) (ops : list (Z * Ops.Op)) :
  saved_tracks_map disk (Ops.apply_all ops (Session.load disk Session.empty)).
Proof.
  assert (∀ s, saved_tracks_map disk (Session.save s)) as Hsave.
  { intros s k. unfold last_saved, Session.save. simpl. rewrite last_snoc. simpl.
    destruct (Session.sessions s !! k); [apply same_identity_refl | done]. }
  assert (∀ s s', Session.written s' = Session.written s →
            (∀ k, match Session.sessions s !! k, Session.sessions s' !! k with
                  | Some m, Some m' => same_identity m m'
                  | None, None => True
                  | _, _ => False
                  end) →
            saved_tracks_map disk s → saved_tracks_map disk s') as Hkeep.
  { intros s s' Hw Hs Hinv k. specialize (Hs k). specialize (Hinv k).
    unfold last_saved in *. rewrite Hw.
    destruct (default _ (last (Session.written s)) !! k) as [d|],
             (Session.sessions s !! k) as [m|],
             (Session.sessions s' !! k) as [m'|]; try done.
    by apply (same_identity_trans d m m'). }
  assert (∀ s cid m now mdl, Session.sessions s !! cid = Some m →
            ∀ k, match Session.sessions s !! k,
                       (<[cid := Session.touch now mdl m]> (Session.sessions s)) !! k with
                 | Some m, Some m' => same_identity m m'
                 | None, None => True
                 | _, _ => False
                 end) as Htouch.
  { intros s cid m now mdl Hm k. destruct (decide (cid = k)) as [<-|Hne].
    - rewrite lookup_insert_eq, Hm. by repeat split.
    - rewrite lookup_insert_ne by done.
      destruct (Session.sessions s !! k); [apply same_identity_refl | done]. }
  assert (∀ cid s, saved_tracks_map disk s →
            saved_tracks_map disk (Session.delete cid s).2) as Hdelete.
  { intros cid s Hinv. unfold Session.delete.
    destruct (Session.sessions s !! cid); [apply Hsave | done]. }
  assert (∀ cid mdl now uuid s, saved_tracks_map disk s →
            saved_tracks_map disk (Session.getOrCreate cid mdl now uuid s).2) as Hgoc.
  { intros cid mdl now uuid s Hinv. unfold Session.getOrCreate.
    destruct (Session.sessions s !! cid) as [m|] eqn:Hm; [|apply Hsave].
    eapply Hkeep; [| |exact Hinv]; [done|]. simpl. by apply Htouch. }
  assert (∀ now o s, Session.loaded s = true → saved_tracks_map disk s →
            saved_tracks_map disk (Ops.apply now o s)) as Hstep.
  { intros now o s Hl Hinv.
    destruct o as [disk'|c mdl uuid|c|c| |user mdl uuid|conv]; simpl.
    - by rewrite load_loaded.
    - by apply Hgoc.
    - done.
    - by apply Hdelete.
    - unfold Session.cleanup.
      pose proof (cleanup_fold_spec (now - Session.SESSION_TTL_MS)
                    (Session.sessions s) (Session.sessions s) 0) as (_ & Hle & Heq).
      destruct (map_fold _ _ _) as [m removed]. simpl in *.
      destruct (0 <? removed) eqn:Hr; simpl; [apply Hsave|].
      apply Z.ltb_ge in Hr. rewrite Heq by lia. by destruct s.
    - unfold Routes.session_setup. destruct (truthy_str user); [|done].
      unfold Session.get.
      destruct (Session.sessions s !! default ""%string user) as [m|] eqn:Hm.
      + apply Hsave.
      + specialize (Hgoc (default ""%string user) mdl now uuid s Hinv).
        by destruct (Session.getOrCreate _ _ _ _ _).
    - unfold Routes.on_resume_failed. destruct (truthy_str conv); [|done].
      by apply Hdelete. }
  assert (saved_tracks_map disk (Session.load disk Session.empty)) as Hinit.
  { intros k. unfold last_saved. simpl.
    destruct (default ∅ disk !! k); [apply same_identity_refl | done]. }
  assert (Session.loaded (Session.load disk Session.empty) = true) as Hloaded
    by done.
  revert Hloaded Hinit. generalize (Session.load disk Session.empty).
  induction ops as [|[now o] ops IH]; intros s Hl Hinv; simpl; [done|].
  apply IH; [by apply apply_loaded | by apply Hstep].
Qed.

(** X3.  Creating a session for a conversation that has none and deleting
    it again gives back the map as it was; [delete] reports [true], and
    both steps write the session file: first with the new conversation,
    then without it. *)
Theorem delete_undoes_getOrCreate
    (s : Session.SessionManager) (cid : string) (mdl : option string)
    (now : Z) (uuid : string) :
  Session.sessions s !! cid = None →
  let created := (Session.getOrCreate cid mdl now uuid s).2 in
  let r := Session.delete cid created in
  r.1 = true
  ∧ Session.sessions r.2 = Session.sessions s
  ∧ Session.written r.2
    = Session.written s ++ [Session.sessions created; Session.sessions s].
Proof.
  intros Hnone created r. subst created r.
  rewrite (getOrCreate_new _ _ _ _ _ Hnone). simpl.
  unfold Session.delete. simpl. rewrite lookup_insert_eq. simpl.
  rewrite delete_insert_id by done. by rewrite <- app_assoc.
Qed.

Lemma delete_undoes_getOrCreate_c1 :
  let created := (Session.getOrCreate "c1" None 1000 "uuid-a" Session.empty).2 in
  (Session.delete "c1" created).1 = true
  ∧ Session.sessions (Session.delete "c1" created).2 = ∅.
Proof.
  destruct (delete_undoes_getOrCreate Session.empty "c1" None 1000 "uuid-a")
    as (H1 & H2 & _).
  - reflexivity.
  - split; [exact H1 | exact H2].
Defined.

(** X4.  A session created before the initial [load] has resolved is
    dropped from memory when it does, unless the file on disk has the
    conversation: the map is replaced by the content of the file (empty
    when the file is missing or invalid), while the document written at
    creation stays in the write log. *)
Theorem load_replaces_sessions_created_before_it
    (disk : option (gmap string Session.SessionMapping))
    (cid : string) (mdl : option string) (now : Z) (uuid : string) :
  default ∅ disk !! cid = None →
  let created := (Session.getOrCreate cid mdl now uuid Session.empty).2 in
  let s := Session.load disk created in
  Session.get cid created ≠ None
  ∧ Session.get cid s = None
  ∧ Session.sessions s = default ∅ disk
  ∧ Session.written s = [Session.sessions created]
  ∧ ∀ disk', Session.load disk' s = s.
Proof.
  intros Hdisk created s. subst created s. unfold Session.get.
  rewrite getOrCreate_new by apply lookup_empty. simpl.
  rewrite lookup_insert_eq. done.
Qed.

Lemma load_replaces_sessions_created_before_it_c1 :
  let created := (Session.getOrCreate "c1" None 1000 "uuid-a" Session.empty).2 in
  Session.get "c1" created ≠ None
  ∧ Session.get "c1" (Session.load None created) = None.
Proof.
  destruct (load_replaces_sessions_created_before_it None "c1" None 1000 "uuid-a")
    as (H1 & H2 & _).
  - reflexivity.
  - split; [exact H1 | exact H2].
Defined.

(** ** Request handler: sessions and subprocess options *)

Section handler_sessions.

Lemma resumed_request_step cid mdl now uuid s m :
  truthy_str (Some cid) = true →
  Session.sessions s !! cid = Some m →
  ∃ m', Session.sessions (Routes.session_setup (Some cid) mdl now uuid s).2 !! cid = Some m'
        ∧ (Routes.session_setup (Some cid) mdl now uuid s).1
          = (true, Some (Session.claudeSessionId m))
        ∧ Session.claudeSessionId m' = Session.claudeSessionId m
        ∧ Session.lastUsedAt m' = now
        ∧ Session.model m' = Session.model m
        ∧ Session.messageCount m' = Some (or_zero (Session.messageCount m) + 1).
Proof.
  intros Hcid Hm. unfold Routes.session_setup. rewrite Hcid. simpl.
  unfold Session.get. rewrite Hm. simpl. rewrite lookup_insert_eq.
  eexists. split; [done|]. by repeat split.
Qed.

Lemma build_subOpts_cases cli_model systemPrompt has id :
  let o := Routes.build_subOpts cli_model systemPrompt has id in
  (Routes.sessionId o = None ∨ Routes.resumeSessionId o = None)
  ∧ (∀ x, Routes.resumeSessionId o = Some x → has = true ∧ id = Some x)
  ∧ (∀ x, Routes.sessionId o = Some x → has = false ∧ id = Some x)
  ∧ (id = None → Routes.sessionId o = None ∧ Routes.resumeSessionId o = None).
Proof.
  unfold Routes.build_subOpts.
  destruct has, (truthy_str id) eqn:E; cbn [andb]; rewrite ?E; cbn;
    (split; [by (left + right)|]); (split; [|split]);
    try (intros x Hx; by (discriminate Hx || (split; [done | exact Hx])));
    try (intros ->; by (discriminate E || done)).
Qed.

End handler_sessions.

(** X5.  Every request of a conversation that has a stored session
    resumes it: after any number of such requests the mapping has the same
    provider session id and model, and its message count has grown by the
    number of requests (counting an absent count as 0). *)
Theorem resumed_requests_are_counted
    (cid : string) (reqs : list (Z * (option string * string)))
    (s : Session.SessionManager) (m : Session.SessionMapping) :
  truthy_str (Some cid) = true →
  Session.sessions s !! cid = Some m →
  ∃ m', Session.sessions (Ops.apply_all (requests_of cid reqs) s) !! cid = Some m'
        ∧ Session.claudeSessionId m' = Session.claudeSessionId m
        ∧ Session.model m' = Session.model m
        ∧ or_zero (Session.messageCount m')
          = or_zero (Session.messageCount m) + Z.of_nat (length reqs).
Proof.
  intros Hcid. revert s m.
  induction reqs as [|[now [mdl uuid]] reqs IH]; intros s m Hm; simpl.
  - exists m. repeat split; [done|]. lia.
  - destruct (resumed_request_step cid mdl now uuid s m Hcid Hm)
      as (m1 & Hm1 & _ & Hid & _ & Hmdl & Hcount).
    destruct (IH _ _ Hm1) as (m' & Hm' & Hid' & Hmdl' & Hcount').
    exists m'. split; [done|]. rewrite Hid', Hmdl', Hcount', Hcount. simpl.
    repeat split; [done|done|]. lia.
Qed.

Lemma resumed_requests_are_counted_c1 :
  let s := (Session.getOrCreate "c1" None 1000 "uuid-a" Session.empty).2 in
  let reqs := [ (2000, (None, "u1")); (3000, (Some "opus", "u2"));
                (4000, (None, "u3")) ]%string in
  ∃ m', Session.sessions (Ops.apply_all (requests_of "c1" reqs) s) !! "c1"%string = Some m'
        ∧ Session.claudeSessionId m' = "uuid-a"%string
        ∧ or_zero (Session.messageCount m') = 3.
Proof.
  intros s reqs.
  destruct (resumed_requests_are_counted "c1" reqs s
              {| Session.conversationId := "c1"; Session.claudeSessionId := "uuid-a";
                 Session.createdAt := 1000; Session.lastUsedAt := 1000;
                 Session.model := "sonnet"; Session.messageCount := None |})
    as (m' & Hm' & Hid & _ & Hcount).
  - reflexivity.
  - vm_compute. reflexivity.
  - exists m'. split; [exact Hm'|]. split; [exact Hid | exact Hcount].
Defined.

(** X6.  The options of the one subprocess a request starts never carry
    both [sessionId] and [resumeSessionId].  [resumeSessionId] is only
    ever the id stored for the request's conversation before the request;
    [sessionId] is only ever the fresh id, for a conversation that had no
    session.  A request without a conversation id gets neither and leaves
    the session manager as it was. *)
Theorem spawn_options_name_one_session
    (env : Streaming.Env) (body : Routes.RequestBody) (cli_model : string)
    (systemPrompt : option string) (now : Z) (uuid : string)
    (s : Session.SessionManager) (r : Routes.Request) :
  Routes.handleChatCompletions env body cli_model systemPrompt now uuid s
    = Routes.in_flight r →
  ∃ opts,
    Routes.spawned r = [opts]
    ∧ (Routes.sessionId opts = None ∨ Routes.resumeSessionId opts = None)
    ∧ (∀ id, Routes.resumeSessionId opts = Some id →
             Session.claudeSessionId
               <$> Session.sessions s !! default ""%string (Routes.user body)
             = Some id)
    ∧ (∀ id, Routes.sessionId opts = Some id →
             id = uuid
             ∧ Session.sessions s !! default ""%string (Routes.user body) = None)
    ∧ (truthy_str (Routes.user body) = false →
       Routes.store r = s
       ∧ Routes.sessionId opts = None ∧ Routes.resumeSessionId opts = None).
Proof.
  unfold Routes.handleChatCompletions.
  destruct (Routes.messages body) as [[|x xs]|]; try (intros H; discriminate H).
  unfold Routes.session_setup, Session.get.
  destruct (truthy_str (Routes.user body)) eqn:Huser.
  - destruct (Session.sessions s !! default ""%string (Routes.user body))
      as [m|] eqn:Hm.
    + intros [= <-]. eexists. split; [reflexivity|].
      destruct (build_subOpts_cases cli_model systemPrompt true
                  (Some (Session.claudeSessionId m))) as (H1 & H2 & H3 & _).
      split; [exact H1|]. split; [|split].
      * intros id Hid. destruct (H2 id Hid) as [_ [= <-]]. done.
      * intros id Hid. destruct (H3 id Hid) as [Hf _]. discriminate Hf.
      * intros Hf. discriminate Hf.
    + rewrite getOrCreate_new by done. intros [= <-].
      eexists. split; [reflexivity|].
      destruct (build_subOpts_cases cli_model systemPrompt false (Some uuid))
        as (H1 & H2 & H3 & _).
      split; [exact H1|]. split; [|split].
      * intros id Hid. destruct (H2 id Hid) as [Hf _]. discriminate Hf.
      * intros id Hid. destruct (H3 id Hid) as [_ [= <-]]. done.
      * intros Hf. discriminate Hf.
  - intros [= <-]. eexists. split; [reflexivity|].
    destruct (build_subOpts_cases cli_model systemPrompt false None)
      as (H1 & H2 & H3 & H4).
    split; [exact H1|]. split; [|split].
    + intros id Hid. destruct (H2 id Hid) as [Hf _]. discriminate Hf.
    + intros id Hid. destruct (H3 id Hid) as [_ Hf]. discriminate Hf.
    + intros _. split; [done|]. by apply H4.
Qed.

Lemma spawn_options_name_one_session_c1 :
  let s := (Session.getOrCreate "c1" None 1000 "uuid-a" Session.empty).2 in
  let body := {| Routes.messages := Some ["hello"%string]; Routes.stream := false;
                 Routes.user := Some "c1"%string; Routes.model := None |} in
  ∃ r opts,
    Routes.handleChatCompletions example_env body "sonnet" None 2000 "uuid-b" s
      = Routes.in_flight r
    ∧ Routes.spawned r = [opts]
    ∧ (Routes.sessionId opts = None ∨ Routes.resumeSessionId opts = None).
Proof.
  intros s body.
  eexists. 
  destruct (spawn_options_name_one_session example_env body "sonnet" None 2000
              "uuid-b" s _ eq_refl) as (opts & H1 & H2 & _).
  exists opts. split; [reflexivity|]. split; [exact H1 | exact H2].
Defined.

(** ** Adapter and model catalog *)

(** X7.  [normalizeModelName] is idempotent: a normalized name normalizes
    to itself, so a name can pass through it any number of times (as the
    model of the closing chunk does when it was taken from a normalized
    name). *)
Theorem normalizeModelName_idempotent (model : option string) :
  Adapter.normalizeModelName (Some (Adapter.normalizeModelName model))
  = Adapter.normalizeModelName model.
Proof.
  destruct model as [m|]; [|reflexivity].
  remember (Adapter.normalizeModelName (Some m)) as n eqn:Hn.
  pose proof Hn as Hn'. unfold Adapter.normalizeModelName in Hn'.
  destruct (negb (truthy_str (Some m))) eqn:Ht; [clear Hn; subst n; reflexivity|].
  destruct (includes "opus" m) eqn:Ho; [clear Hn; subst n; reflexivity|].
  destruct (includes "sonnet" m) eqn:Hs; [clear Hn; subst n; reflexivity|].
  destruct (includes "haiku" m) eqn:Hh; [clear Hn; subst n; reflexivity|].
  congruence.
Qed.

(** X8.  The three ids listed by [GET /v1/models] are exactly the names
    [normalizeModelName] maps the known families to: every listed id is
    its own normal form, and the normal form of any name (or of no name)
    is a listed id unless the name mentions none of "opus", "sonnet",
    "haiku", in which case it is the name itself. *)
Theorem model_names_normalize_into_the_catalog (now : Z) (model : option string) :
  (∀ entry, entry ∈ Models.handleModels now →
            Adapter.normalizeModelName (Some (Models.id entry)) = Models.id entry)
  ∧ (Adapter.normalizeModelName model ∈ Models.id <$> Models.handleModels now
     ∨ (model = Some (Adapter.normalizeModelName model)
        ∧ includes "opus" (Adapter.normalizeModelName model) = false
        ∧ includes "sonnet" (Adapter.normalizeModelName model) = false
        ∧ includes "haiku" (Adapter.normalizeModelName model) = false)).
Proof.
  split.
  - intros entry Hin. unfold Models.handleModels in Hin.
    repeat (apply elem_of_cons in Hin as [->|Hin]; [reflexivity|]).
    by apply elem_of_nil in Hin.
  - assert (∀ x : string, x ∈ ["claude-opus-4"; "claude-sonnet-4"; "claude-haiku-4"]%string →
              x ∈ Models.id <$> Models.handleModels now) as Hcat by (intros x Hx; exact Hx).
    destruct model as [m|]; [|left; apply Hcat; set_solver].
    unfold Adapter.normalizeModelName.
    destruct (negb (truthy_str (Some m))) eqn:Ht; [left; apply Hcat; set_solver|].
    destruct (includes "opus" m) eqn:Ho; [left; apply Hcat; set_solver|].
    destruct (includes "sonnet" m) eqn:Hs; [left; apply Hcat; set_solver|].
    destruct (includes "haiku" m) eqn:Hh; [left; apply Hcat; set_solver|].
    right. done.
Qed.

(** ** Telegram token *)

(** X9.  The bot token is looked up once.  Whatever the config file holds
    at later calls, [telegramApi] behaves as with the file of the first
    lookup; and when that lookup found no token (file missing, invalid, or
    without a token) no later call makes a request: each returns [null]. *)
Theorem telegram_token_is_looked_up_once
    (first later : option (option string)) (call : Progress.ApiCall)
    (reply : option Progress.ApiResponse) :
  let looked := Telegram.getTelegramBotToken first Telegram.unread in
  Telegram.telegramApi later call reply looked.2
  = Telegram.telegramApi first call reply looked.2
  ∧ (Telegram.telegramApi later call reply looked.2).1.2 = looked.2
  ∧ (looked.1 = None →
     Telegram.telegramApi later call reply looked.2 = (None, looked.2, []))
  ∧ (∀ f, f ∈ (Telegram.telegramApi later call reply looked.2).2 →
          Telegram.url f
          = ("https://api.telegram.org/bot" +:+ default "" looked.1 +:+ "/"
             +:+ Telegram.method_name call)%string).
Proof.
  simpl. unfold Telegram.telegramApi. simpl.
  set (token := match first with
                | Some botToken => if truthy_str botToken then botToken else None
                | None => None
                end).
  split; [done|]. split; [by destruct (negb (truthy_str token))|]. split.
  - intros ->. done.
  - destruct (negb (truthy_str token)); simpl; intros f Hf.
    + by apply elem_of_nil in Hf.
    + apply list_elem_of_singleton in Hf as ->. done.
Qed.

(** ** Progress reporter: what it sends, and when not *)

Section progress_more.
Import Progress.

Lemma disabled_step now e r :
  reporter_disabled r →
  (step now e r).2 = [] ∧ reporter_disabled (step now e r).1.
Proof.
  intros [Hc Ht]. destruct e as [toolName| |result|]; simpl.
  - unfold report. destruct (isDeleted r); [done|]. by rewrite Hc.
  - unfold timer_callback. by rewrite Ht.
  - split; [done|]. unfold sendMessage_resolved.
    destruct result as [resp|]; [destruct (ok resp)|]; done.
  - unfold cleanup. simpl. rewrite Ht. simpl. rewrite Hc, andb_false_r. done.
Qed.

Lemma terminated_step now e r :
  reporter_terminated r →
  flush_times (step now e r).2 = [] ∧ reporter_terminated (step now e r).1.
Proof.
  intros [Hd Ht]. destruct e as [toolName| |result|]; simpl.
  - unfold report. by rewrite Hd.
  - unfold timer_callback. by rewrite Ht.
  - split; [done|]. unfold sendMessage_resolved.
    destruct result as [resp|]; [destruct (ok resp)|]; done.
  - unfold cleanup. simpl. rewrite Ht. simpl.
    by destruct (truthy_num (messageId r) && truthy_str (chatId r)).
Qed.

Lemma terminated_run evs r :
  reporter_terminated r → flush_times (run evs r).2 = [].
Proof.
  revert r. induction evs as [|[now e] evs IH]; intros r Hr; simpl; [done|].
  destruct (terminated_step now e r Hr) as [Hc Hr'].
  specialize (IH _ Hr'). destruct (step now e r) as [r1 c1]. simpl in *.
  destruct (run evs r1) as [r2 c2]. simpl in *.
  rewrite flush_times_app, Hc. exact IH.
Qed.

Lemma last_slice_last {A} (n : nat) (l : list A) :
  (0 < n)%nat → last (slice_last n l) = last l.
Proof.
  intros Hn. unfold slice_last. rewrite !last_lookup, length_drop, lookup_drop.
  destruct l as [|a l]; [done|]. f_equal. simpl. lia.
Qed.

Lemma flush_call_live now r :
  isDeleted r = false →
  ∃ c, (_flush now r).2 = [(now, c)]
       ∧ is_flush (now, c) = true
       ∧ call_text c = Some (_buildText r)
       ∧ (truthy_num (messageId r) = true →
          c = editMessageText (chatId r) (messageId r) (_buildText r))
       ∧ toolHistory (_flush now r).1 = toolHistory r
       ∧ messageId (_flush now r).1 = messageId r
       ∧ chatId (_flush now r).1 = chatId r
       ∧ isDeleted (_flush now r).1 = false
       ∧ pendingLabel (_flush now r).1 = None
       ∧ throttleTimer (_flush now r).1 = throttleTimer r.
Proof.
  intros Hd. unfold _flush. rewrite Hd. simpl.
  destruct (truthy_num (messageId r)); simpl; eexists; repeat split; try done.
Qed.

End progress_more.

(** X10.  After [cleanup], whatever happens to the reporter (reports, a
    late timer, a late [sendMessage] result, more cleanups), it never
    sends or edits the progress message again. *)
Theorem no_flush_after_cleanup
    (now : Z) (r : Progress.ProgressReporter) (evs : list (Z * Progress.Event)) :
  Progress.flush_times (Progress.run evs (Progress.cleanup now r).1).2 = [].
Proof.
  apply terminated_run. split; apply cleanup_clears_timer.
Qed.

(** X11.  Once the progress message exists, every later call (until
    another [sendMessage] resolves) is an edit or a delete of that same
    message in that same chat: no second message is created. *)
Theorem calls_target_the_created_message
    (r : Progress.ProgressReporter) (evs : list (Z * Progress.Event)) :
  truthy_num (Progress.messageId r) = true →
  Forall (λ te, is_send_resolved te.2 = false) evs →
  Forall (targets_message (Progress.chatId r) (Progress.messageId r))
         (Progress.run evs r).2.
Proof.
  revert r. induction evs as [|[now e] evs IH]; intros r Hm Hevs; simpl; [done|].
  apply Forall_cons in Hevs as [He Hevs]. simpl in He.
  assert (Forall (targets_message (Progress.chatId r) (Progress.messageId r))
                 (Progress.step now e r).2
          ∧ Progress.messageId (Progress.step now e r).1 = Progress.messageId r
          ∧ Progress.chatId (Progress.step now e r).1 = Progress.chatId r)
    as (Hc & Hm1 & Hc1).
  { assert (∀ x, Progress.isDeleted x = false →
              Progress.messageId x = Progress.messageId r →
              Progress.chatId x = Progress.chatId r →
              Forall (targets_message (Progress.chatId r) (Progress.messageId r))
                     (Progress._flush now x).2
              ∧ Progress.messageId (Progress._flush now x).1 = Progress.messageId r
              ∧ Progress.chatId (Progress._flush now x).1 = Progress.chatId r) as Hflush.
    { intros x Hd Hxm Hxc.
      destruct (flush_call_live now x Hd) as (c & -> & _ & _ & Hedit & _ & -> & -> & _).
      rewrite Hxm in Hedit. rewrite (Hedit Hm). split; [|done].
      apply Forall_singleton. unfold targets_message. simpl. by rewrite Hxc. }
    destruct e as [toolName| |result|]; try discriminate He; simpl.
    - unfold Progress.report.
      destruct (Progress.isDeleted r) eqn:Hd; [done|].
      destruct (negb _); [done|]. case_bool_decide; [done|].
      set (r1 := if bool_decide (_ < _)%nat then _ else _).
      assert (Progress.isDeleted r1 = false
              ∧ Progress.messageId r1 = Progress.messageId r
              ∧ Progress.chatId r1 = Progress.chatId r
              ∧ Progress.throttleTimer r1 = Progress.throttleTimer r)
        as (H1 & H2 & H3 & H4) by (subst r1; by case_bool_decide).
      destruct (_ <=? _); [by apply Hflush|].
      simpl. rewrite H4. by destruct (Progress.throttleTimer r).
    - unfold Progress.timer_callback. destruct (Progress.throttleTimer r); [|done].
      simpl. destruct (Progress.isDeleted r) eqn:Hd; simpl; [done|].
      by apply Hflush.
    - unfold Progress.cleanup. simpl.
      assert (truthy_num (Progress.messageId r) && truthy_str (Progress.chatId r)
              = truthy_str (Progress.chatId r)) as Hand by (by rewrite Hm).
      destruct (Progress.throttleTimer r); simpl; rewrite Hand;
        destruct (truthy_str (Progress.chatId r)); simpl;
        (split; [|done]); try done;
        apply Forall_singleton; by unfold targets_message. }
  specialize (IH (Progress.step now e r).1).
  rewrite Hm1, Hc1 in IH. specialize (IH Hm Hevs).
  destruct (Progress.step now e r) as [r1 c1]. simpl in *.
  destruct (Progress.run evs r1) as [r2 c2]. simpl in *.
  by apply Forall_app.
Qed.

Lemma calls_target_the_created_message_77 :
  let r := (Progress.run
              [ (10000, Progress.Report "Bash");
                (10200, Progress.SendMessageResolved
                          (Some {| Progress.ok := true;
                                   Progress.result_message_id := Some 77 |})) ]
              (Progress.new (Some "42"%string))).1 in
  Forall (targets_message (Some "42"%string) (Some 77))
         (Progress.run [ (14000, Progress.Report "Read"); (15000, Progress.Report "Grep");
                         (17000, Progress.TimerFired); (18000, Progress.Cleanup) ] r).2.
Proof.
  intros r.
  apply (calls_target_the_created_message r
           [ (14000, Progress.Report "Read"); (15000, Progress.Report "Grep");
             (17000, Progress.TimerFired); (18000, Progress.Cleanup) ]).
  - reflexivity.
  - repeat constructor.
Defined.

Lemma report_label_last
    (toolName : string) (now : Z) (r : Progress.ProgressReporter) :
  Progress.isDeleted r = false →
  truthy_str (Progress.chatId r) = true →
  last (Progress.toolHistory (Progress.report toolName now r).1)
  = Some (Progress.label_of toolName).
Proof.
  intros Hd Hc. unfold Progress.report. rewrite Hd, Hc. simpl.
  case_bool_decide as Hlast; [done|].
  set (r1 := if bool_decide (_ < _)%nat then _ else _).
  assert (last (Progress.toolHistory r1) = Some (Progress.label_of toolName)
          ∧ Progress.isDeleted r1 = false) as [Hl Hd1].
  { subst r1. case_bool_decide; simpl.
    - rewrite last_slice_last by lia. by rewrite last_snoc.
    - by rewrite last_snoc. }
  destruct (_ <=? _).
  - destruct (flush_call_live now r1 Hd1) as (c & _ & _ & _ & _ & -> & _). done.
  - simpl. by destruct (Progress.throttleTimer r1).
Qed.

(** X12.  On a live reporter with a destination, the label of the tool
    just reported is the last entry of the history, whether it was
    appended, trimmed around, or already there; a label already last is
    not appended again. *)
Theorem reported_label_is_last
    (toolName : string) (now : Z) (r : Progress.ProgressReporter) :
  Progress.isDeleted r = false →
  truthy_str (Progress.chatId r) = true →
  last (Progress.toolHistory (Progress.report toolName now r).1)
  = Some (Progress.label_of toolName)
  ∧ (last (Progress.toolHistory r) = Some (Progress.label_of toolName) →
     Progress.report toolName now r = (r, [])).
Proof.
  intros Hd Hc. split; [by apply report_label_last|].
  intros Hl. unfold Progress.report. rewrite Hd, Hc. simpl.
  by rewrite bool_decide_eq_true_2.
Qed.

Lemma reported_label_is_last_bash :
  last (Progress.toolHistory
          (Progress.report "Bash" 5000 (Progress.new (Some "42"%string))).1)
  = Some (Progress.label_of "Bash").
Proof. apply (reported_label_is_last "Bash" 5000); reflexivity. Defined.

(** X13.  Trailing edge: a report of a new label that arrives inside the
    interval makes no call; when the timer it armed then fires, one call
    is made, showing the text of the history that ends with that label,
    and nothing is left pending or armed. *)
Theorem throttled_report_is_flushed_by_timer
    (toolName : string) (now later : Z) (r : Progress.ProgressReporter) :
  Progress.isDeleted r = false →
  truthy_str (Progress.chatId r) = true →
  last (Progress.toolHistory r) ≠ Some (Progress.label_of toolName) →
  now - Progress.lastUpdateAt r < Progress.MIN_UPDATE_INTERVAL →
  Progress.throttleTimer r = None →
  let waiting := (Progress.report toolName now r).1 in
  let out := Progress.run [ (now, Progress.Report toolName);
                            (later, Progress.TimerFired) ] r in
  (Progress.report toolName now r).2 = []
  ∧ Progress.throttleTimer waiting
    = Some (Progress.lastUpdateAt r + Progress.MIN_UPDATE_INTERVAL)
  ∧ (∃ c, out.2 = [(later, c)]
          ∧ Progress.is_flush (later, c) = true
          ∧ call_text c = Some (Progress._buildText out.1))
  ∧ last (Progress.toolHistory out.1) = Some (Progress.label_of toolName)
  ∧ Progress.pendingLabel out.1 = None
  ∧ Progress.throttleTimer out.1 = None
  ∧ Progress.lastUpdateAt out.1 = later.
Proof.
  intros Hd Hc Hl He Ht waiting out. subst waiting out.
  pose proof (report_label_last toolName now r Hd Hc) as Hlast.
  destruct (report_inside_interval toolName now r Hd Hc Hl He)
    as (Hcalls & Hpend & Hlu & Htimer).
  rewrite Ht in Htimer.
  assert (Progress.isDeleted (Progress.report toolName now r).1 = false) as Hd'.
  { unfold Progress.report. rewrite Hd, Hc. simpl.
    rewrite bool_decide_eq_false_2 by done.
    set (r1 := if bool_decide (_ < _)%nat then _ else _).
    assert (Progress.isDeleted r1 = false) as Hd1 by (subst r1; by case_bool_decide).
    destruct (_ <=? _).
    - by destruct (flush_call_live now r1 Hd1) as (c & _ & _ & _ & _ & _ & _ & _ & -> & _).
    - simpl. by destruct (Progress.throttleTimer r1). }
  split; [done|]. split; [done|].
  cbn [Progress.run Progress.step].
  destruct (Progress.report toolName now r) as [r1 c1]. simpl in *. subst c1.
  unfold Progress.timer_callback. rewrite Htimer. simpl. rewrite Hd'. simpl.
  destruct (flush_call_live later (Progress.set_throttleTimer None r1) Hd')
    as (c & Hc2 & Hfl & Htext & _ & Hh & _ & _ & _ & Hp & Htt).
  assert (Progress.lastUpdateAt (Progress._flush later (Progress.set_throttleTimer None r1)).1
          = later) as Hlater.
  { unfold Progress._flush. simpl. rewrite Hd'. by destruct (negb _). }
  assert (Progress._buildText (Progress._flush later (Progress.set_throttleTimer None r1)).1
          = Progress._buildText (Progress.set_throttleTimer None r1)) as Hbt.
  { unfold Progress._buildText. by rewrite Hh. }
  destruct (Progress._flush later (Progress.set_throttleTimer None r1)) as [r2 c2].
  simpl in *. subst c2. simpl.
  split; [exists c; by rewrite Hbt|]. rewrite Hh. done.
Qed.

Lemma throttled_report_is_flushed_by_timer_read :
  let r := (Progress.run [ (5000, Progress.Report "Bash") ]
                         (Progress.new (Some "42"%string))).1 in
  let out := Progress.run [ (6000, Progress.Report "Read");
                            (8000, Progress.TimerFired) ] r in
  (∃ c, out.2 = [(8000, c)] ∧ Progress.is_flush (8000, c) = true
        ∧ call_text c = Some (Progress._buildText out.1))
  ∧ Progress.pendingLabel out.1 = None.
Proof.
  intros r out.
  destruct (throttled_report_is_flushed_by_timer "Read" 6000 8000 r)
    as (_ & _ & H & _ & Hp & _).
  - reflexivity.
  - reflexivity.
  - vm_compute. intros H. discriminate H.
  - vm_compute. reflexivity.
  - reflexivity.
  - split; [exact H | exact Hp].
Defined.

(** X24.  When every timer callback runs on time (not before it is due,
    and before any report stamped at or after its due time) and the clock
    does not run backwards, any two consecutive sends or edits of the
    progress message are at least the minimum interval apart, from the
    first report of the request on. *)
Theorem punctual_flushes_keep_the_interval
    (chat : option string) (evs : list (Z * Progress.Event)) :
  punctual 0 evs (Progress.new chat) →
  spaced 0 (Progress.flush_times (Progress.run evs (Progress.new chat)).2).
Proof.
  intros Hp.
  apply (flushes_spaced_when_timer_punctual 0 evs (Progress.new chat)); [|done].
  split; [done|]. intros due H. discriminate H.
Qed.

(** The flushes of a punctual run: reports at 5000, 6000, 7000, the timer
    at its due time 8000, a report at 9000 and the timer again at 11000. *)
Lemma punctual_flushes_keep_the_interval_run :
  let evs := [ (5000, Progress.Report "Bash"); (6000, Progress.Report "Read");
               (7000, Progress.Report "Grep"); (8000, Progress.TimerFired);
               (9000, Progress.Report "Edit"); (11000, Progress.TimerFired) ] in
  Progress.flush_times (Progress.run evs (Progress.new (Some "42"%string))).2
  = [5000; 8000; 11000]
  ∧ spaced 0 (Progress.flush_times
                (Progress.run evs (Progress.new (Some "42"%string))).2).
Proof.
  intros evs. split; [vm_compute; reflexivity|].
  apply (punctual_flushes_keep_the_interval (Some "42"%string) evs).
  vm_compute. repeat split; intros H; discriminate H.
Defined.

Lemma prefix_append (s a b : string) :
  String.prefix s ((s +:+ a) +:+ b) = true ∧ String.prefix s (s +:+ a) = true.
Proof.
  induction s as [|c s [IH1 IH2]].
  - split; [by destruct (("" +:+ a) +:+ b)%string | by destruct ("" +:+ a)%string].
  - cbv [String.append]. fold String.append. cbn [String.prefix].
    destruct (ascii_dec c c); [done | contradiction].
Qed.

(** X14.  The text shown always begins with the in-progress marker,
    whatever the history. *)
Theorem buildText_begins_with_marker (r : Progress.ProgressReporter) :
  String.prefix "⏳ " (Progress._buildText r) = true.
Proof.
  unfold Progress._buildText. destruct (Progress.toolHistory r) as [|l rest].
  - vm_compute. reflexivity.
  - cbn [imap]. rewrite bool_decide_eq_true_2 by done.
    set (tl := imap _ rest). destruct tl; cbn [Progress.join].
    + exact (proj2 (prefix_append "⏳ " (l +:+ "...") "")).
    + exact (proj1 (prefix_append "⏳ " (l +:+ "...") _)).
Qed.

(** ** Streaming handler: the reporter, the response, the subprocess *)

Section streaming_more.
Import Streaming.

Lemma with_progress_fields f st :
  let st' := with_progress f st in
  progress st' = (f (progress st)).1
  ∧ telegram st' = telegram st ++ (f (progress st)).2
  ∧ killed st' = killed st ∧ notified st' = notified st
  ∧ isComplete st' = isComplete st ∧ lastModel st' = lastModel st
  ∧ turnCount st' = turnCount st ∧ turnBuffer st' = turnBuffer st
  ∧ written st' = written st ∧ writableEnded st' = writableEnded st.
Proof. unfold with_progress. by destruct (f (progress st)). Qed.

Lemma write_buffer_fields env now isFirst buf st :
  let st' := write_buffer env now isFirst buf st in
  written st' = written st ++ buffer_chunks env now (lastModel st) isFirst buf
  ∧ progress st' = progress st ∧ telegram st' = telegram st
  ∧ killed st' = killed st ∧ notified st' = notified st
  ∧ isComplete st' = isComplete st ∧ lastModel st' = lastModel st
  ∧ turnCount st' = turnCount st ∧ writableEnded st' = writableEnded st.
Proof.
  revert isFirst st. induction buf as [|t buf IH]; intros isFirst st; simpl.
  - by rewrite app_nil_r.
  - destruct (IH false (write (sse_chunk (content_chunk env now (lastModel st) isFirst t)) st))
      as (-> & -> & -> & -> & -> & -> & -> & -> & ->).
    simpl. by rewrite <- app_assoc.
Qed.

Lemma notifyTelegram_fields env message st :
  let st' := notifyTelegram env message st in
  notified st' = notified st
                 ++ (if truthy_str (TELEGRAM_NOTIFY_ID env) then [message] else [])
  ∧ progress st' = progress st ∧ telegram st' = telegram st
  ∧ killed st' = killed st ∧ isComplete st' = isComplete st
  ∧ lastModel st' = lastModel st ∧ turnCount st' = turnCount st
  ∧ written st' = written st ∧ writableEnded st' = writableEnded st.
Proof.
  unfold notifyTelegram. destruct (truthy_str (TELEGRAM_NOTIFY_ID env)); simpl;
    by rewrite ?app_nil_r.
Qed.

(** What [on_message] does, field by field. *)
Lemma on_message_fields now msg st :
  let st' := on_message now msg st in
  let pevs := reporter_events (isComplete st) (Sub (Cli.on_message msg)) in
  progress st' = (Progress.run ((λ pe, (now, pe)) <$> pevs) (progress st)).1
  ∧ telegram st' = telegram st
                   ++ (Progress.run ((λ pe, (now, pe)) <$> pevs) (progress st)).2
  ∧ killed st' = killed st ∧ notified st' = notified st
  ∧ isComplete st' = isComplete st ∧ lastModel st' = lastModel st
  ∧ turnCount st' = turnCount st
                    + (if is_message_start (Sub (Cli.on_message msg)) then 1 else 0)
  ∧ written st' = written st ∧ writableEnded st' = writableEnded st.
Proof.
  unfold on_message, reporter_events, tool_call_name, is_message_start.
  destruct (bool_decide (Cli.msg_type msg = "stream_event"%string)); simpl;
    [|rewrite app_nil_r; repeat split; lia].
  destruct (Cli.event msg) as [ev|]; simpl;
    [|rewrite app_nil_r; repeat split; lia].
  set (st1 := if bool_decide (Some (Cli.event_type ev) = Some "content_block_start"%string)
              then _ else _).
  set (pevs := if bool_decide (Cli.event_type ev = "content_block_start"%string)
               then _ else _).
  assert (progress st1
          = (Progress.run ((λ pe, (now, pe)) <$>
                             match pevs with
                             | Some name => [Progress.Report name]
                             | None => []
                             end) (progress st)).1
          ∧ telegram st1
            = telegram st
              ++ (Progress.run ((λ pe, (now, pe)) <$>
                                  match pevs with
                                  | Some name => [Progress.Report name]
                                  | None => []
                                  end) (progress st)).2
          ∧ killed st1 = killed st ∧ notified st1 = notified st
          ∧ isComplete st1 = isComplete st ∧ lastModel st1 = lastModel st
          ∧ turnCount st1 = turnCount st
          ∧ written st1 = written st ∧ writableEnded st1 = writableEnded st)
    as (H1 & H2 & H3 & H4 & H5 & H6 & H7 & H8 & H9).
  { subst st1 pevs.
    destruct (decide (Cli.event_type ev = "content_block_start"%string)) as [Heq|Hne].
    - rewrite !bool_decide_eq_true_2 by congruence.
      destruct (Cli.content_block ev) as [block|]; simpl;
        [|rewrite app_nil_r; repeat split].
      destruct (bool_decide (Cli.block_type block = "tool_use"%string)
                && truthy_str (Cli.block_name block)) eqn:Hb; simpl;
        [|rewrite app_nil_r; repeat split].
      destruct (Cli.block_name block) as [name|] eqn:Hn;
        [|by rewrite andb_false_r in Hb].
      simpl.
      destruct (with_progress_fields (Progress.report name now) st)
        as (-> & -> & -> & -> & -> & -> & -> & _ & -> & ->).
      destruct (Progress.report name now (progress st)) as [p c]. simpl.
      by rewrite app_nil_r.
    - rewrite !bool_decide_eq_false_2 by congruence. simpl.
      rewrite app_nil_r. repeat split. }
  case_bool_decide; simpl; rewrite ?H1, ?H2, ?H3, ?H4, ?H5, ?H6, ?H7, ?H8, ?H9;
    repeat split; lia.
Qed.

Lemma progress_run_app l1 l2 r :
  Progress.run (l1 ++ l2) r
  = ((Progress.run l2 (Progress.run l1 r).1).1,
     (Progress.run l1 r).2 ++ (Progress.run l2 (Progress.run l1 r).1).2).
Proof.
  revert r. induction l1 as [|[now e] l1 IH]; intros r; simpl.
  - by destruct (Progress.run l2 r).
  - destruct (Progress.step now e r) as [r1 c1]. rewrite IH.
    destruct (Progress.run l1 r1) as [r2 c2]. simpl.
    by rewrite app_assoc.
Qed.

Lemma progress_run_single now pe r :
  Progress.run [(now, pe)] r = Progress.step now pe r.
Proof.
  simpl. destruct (Progress.step now pe r) as [r1 c1]. by rewrite app_nil_r.
Qed.

(** One step of the handler: the reporter sees exactly the calls of
    [reporter_events]; [isComplete], [killed], the model, the turn counter
    and the notifications change as stated. *)
Lemma step_fields env now e st :
  let st' := step env now e st in
  let pevs := (λ pe, (now, pe)) <$> reporter_events (isComplete st) e in
  progress st' = (Progress.run pevs (progress st)).1
  ∧ telegram st' = telegram st ++ (Progress.run pevs (progress st)).2
  ∧ isComplete st' = (isComplete st || is_result_event e)
  ∧ killed st'
    = (killed st || (if e is ResClose then negb (isComplete st) else false))
  ∧ lastModel st' = (if e is Sub (Cli.on_assistant model) then model else lastModel st)
  ∧ turnCount st' = turnCount st + (if is_message_start e then 1 else 0)
  ∧ notified st'
    = notified st ++ (if truthy_str (TELEGRAM_NOTIFY_ID env)
                      then timeout_notices [(now, e)] else []).
Proof.
  assert (∀ l : list string, l ++ (if truthy_str (TELEGRAM_NOTIFY_ID env) then [] else []) = l)
    as Hnil by (intros l; destruct (truthy_str _); by rewrite app_nil_r).
  destruct e as [[msg|ev|mdl|r|m|code|txt]| | |result|m];
    cbn [step reporter_events is_result_event is_message_start timeout_notices
         omap snd fmap list_fmap];
    rewrite ?orb_false_r, ?Hnil.
  - destruct (on_message_fields now msg st)
      as (H1 & H2 & H3 & H4 & H5 & H6 & H7 & _).
    cbn [reporter_events] in H1, H2. rewrite H1, H2, H3, H4, H5, H6, H7.
    by rewrite orb_false_r, Z.add_0_r || done.
  - unfold on_content_delta.
    destruct (truthy_str (Some (default ""%string (Cli.delta ev ≫= Cli.text)))); simpl;
      rewrite ?app_nil_r, ?orb_false_r, ?Z.add_0_r; repeat split.
  - simpl. rewrite ?app_nil_r, ?orb_false_r, ?Z.add_0_r. repeat split.
  - unfold on_result.
    destruct (with_progress_fields (Progress.cleanup now) (set_isComplete true st))
      as (H1 & H2 & H3 & H4 & H5 & H6 & H7 & H8 & H9 & H10).
    set (st1 := with_progress (Progress.cleanup now) (set_isComplete true st)) in *.
    simpl in H1, H2, H3, H4, H5, H6, H7, H8, H9, H10.
    rewrite progress_run_single. cbn [Progress.step].
    destruct (negb (writableEnded st1)).
    + destruct (write_buffer_fields env now true (turnBuffer st1) st1)
        as (_ & W2 & W3 & W4 & W5 & W6 & W7 & W8 & _).
      simpl. rewrite W2, W3, W4, W5, W6, W7, W8, H1, H2, H3, H4, H5, H6, H7.
      rewrite ?orb_true_r, ?orb_false_r, ?Z.add_0_r. done.
    + rewrite H1, H2, H3, H4, H5, H6, H7.
      rewrite ?orb_true_r, ?orb_false_r, ?Z.add_0_r. done.
  - unfold on_error.
    destruct (with_progress_fields (Progress.cleanup now) st)
      as (H1 & H2 & H3 & H4 & H5 & H6 & H7 & _ & H9 & H10).
    set (st1 := with_progress (Progress.cleanup now) st) in *.
    rewrite progress_run_single. cbn [Progress.step].
    set (st2 := if includes "timed out" m then _ else st1).
    assert (notified st2
            = notified st ++ (if truthy_str (TELEGRAM_NOTIFY_ID env)
                              then (if includes "timed out" m
                                    then [("⚠️ 任務超時被終止：" +:+ m)%string] else [])
                              else [])
            ∧ progress st2 = progress st1 ∧ telegram st2 = telegram st1
            ∧ killed st2 = killed st1 ∧ isComplete st2 = isComplete st1
            ∧ lastModel st2 = lastModel st1 ∧ turnCount st2 = turnCount st1)
      as (N1 & N2 & N3 & N4 & N5 & N6 & N7).
    { subst st2. destruct (includes "timed out" m).
      - destruct (notifyTelegram_fields env ("⚠️ 任務超時被終止：" +:+ m)%string st1)
          as (-> & -> & -> & -> & -> & -> & -> & _). by rewrite H4.
      - by rewrite H4, Hnil. }
    assert (timeout_notices [(now, Sub (Cli.on_error m))]
            = if includes "timed out" m
              then [("⚠️ 任務超時被終止：" +:+ m)%string] else []) as ->.
    { unfold timeout_notices. simpl. by destruct (includes "timed out" m). }
    destruct (negb (writableEnded st2)); simpl;
      rewrite N1, N2, N3, N4, N5, N6, N7, H1, H2, H3, H5, H6, H7;
      rewrite ?orb_false_r, ?Z.add_0_r; done.
  - unfold on_close. destruct (negb (writableEnded st)); [|simpl;
      rewrite ?app_nil_r, ?orb_false_r, ?Z.add_0_r; done].
    destruct (negb (bool_decide (code = Some 0)) && negb (isComplete st)); simpl;
      rewrite ?app_nil_r, ?orb_false_r, ?Z.add_0_r; done.
  - simpl. rewrite ?app_nil_r, ?orb_false_r, ?Z.add_0_r. done.
  - unfold on_res_close. destruct (isComplete st) eqn:Hc; simpl.
    + rewrite ?app_nil_r, ?orb_false_r, ?Z.add_0_r, ?Hc. done.
    + destruct (with_progress_fields (Progress.cleanup now) (set_killed true st))
        as (H1 & H2 & H3 & H4 & H5 & H6 & H7 & _).
      simpl in H1, H2, H3, H4, H5, H6, H7.
      rewrite H1, H2, H3, H4, H5, H6, H7.
      destruct (Progress.cleanup now (progress st)) as [p c]. simpl.
      rewrite ?app_nil_r, ?orb_true_r, ?Z.add_0_r. done.
  - destruct (with_progress_fields (Progress.timer_callback now) st)
      as (H1 & H2 & H3 & H4 & H5 & H6 & H7 & _).
    rewrite H1, H2, H3, H4, H5, H6, H7, progress_run_single.
    cbn [Progress.step]. rewrite ?orb_false_r, ?Z.add_0_r. done.
  - destruct (with_progress_fields
                (λ p, (Progress.sendMessage_resolved result p, [])) st)
      as (H1 & H2 & H3 & H4 & H5 & H6 & H7 & _).
    rewrite H1, H2, H3, H4, H5, H6, H7, progress_run_single.
    cbn [Progress.step]. rewrite ?orb_false_r, ?Z.add_0_r. done.
  - simpl. rewrite ?app_nil_r, ?orb_false_r, ?Z.add_0_r. done.
Qed.

End streaming_more.

Section streaming_runs.
Import Streaming.

Lemma disabled_run evs r :
  reporter_disabled r → (Progress.run evs r).2 = [].
Proof.
  revert r. induction evs as [|[now e] evs IH]; intros r Hr; simpl; [done|].
  destruct (disabled_step now e r Hr) as [Hc Hr'].
  specialize (IH _ Hr'). destruct (Progress.step now e r) as [r1 c1]. simpl in *.
  destruct (Progress.run evs r1) as [r2 c2]. simpl in *. by subst.
Qed.

Lemma timeout_notices_cons te evs :
  timeout_notices (te :: evs) = timeout_notices [te] ++ timeout_notices evs.
Proof. change (te :: evs) with ([te] ++ evs). unfold timeout_notices. apply omap_app. Qed.

(** A whole run, field by field. *)
Lemma run_fields env evs st :
  let st' := run env evs st in
  let trace := reporter_trace (isComplete st) evs in
  progress st' = (Progress.run trace (progress st)).1
  ∧ telegram st' = telegram st ++ (Progress.run trace (progress st)).2
  ∧ killed st'
    = (killed st || (negb (isComplete st) && disconnect_before_result evs))
  ∧ lastModel st'
    = default (lastModel st)
        (last (omap (λ te, match te.2 with
                           | Sub (Cli.on_assistant model) => Some model
                           | _ => None
                           end) evs))
  ∧ turnCount st' = turnCount st + Z.of_nat (count_starts evs)
  ∧ notified st'
    = notified st ++ (if truthy_str (TELEGRAM_NOTIFY_ID env)
                      then timeout_notices evs else []).
Proof.
  revert st. induction evs as [|[now e] evs IH]; intros st.
  - simpl. rewrite !app_nil_r, andb_false_r, orb_false_r, Z.add_0_r.
    repeat split. by destruct (truthy_str _); rewrite app_nil_r.
  - cbn [run reporter_trace].
    destruct (step_fields env now e st) as (S1 & S2 & S3 & S4 & S5 & S6 & S7).
    destruct (IH (step env now e st)) as (H1 & H2 & H3 & H4 & H5 & H6).
    rewrite H1, H2, H3, H4, H5, H6, S1, S2, S3, S4, S5, S6, S7.
    rewrite progress_run_app. cbn [fst snd]. rewrite <- !app_assoc.
    split; [done|]. split; [done|]. split; [|split; [|split]].
    + cbn [disconnect_before_result snd].
      destruct e as [[msg|ev|mdl|r|m|code|txt]| | |result|m];
        cbn [is_result_event]; destruct (killed st), (isComplete st); simpl; try done;
        by rewrite ?andb_false_r, ?orb_false_r.
    + destruct e as [[msg|ev|mdl|r|m|code|txt]| | |result|m]; try done.
      set (f := λ te : Z * Event, _).
      change (omap f ((now, Sub (Cli.on_assistant mdl)) :: evs))
        with (mdl :: omap f evs).
      rewrite last_cons. by destruct (last (omap f evs)).
    + cbn [count_starts snd]. destruct (is_message_start e); lia.
    + f_equal. rewrite (timeout_notices_cons (now, e) evs).
      destruct (truthy_str _); [done | by rewrite app_nil_r].
Qed.

(** Once the response is ended no event writes to it. *)
Lemma step_after_end env now e st :
  writableEnded st = true →
  written (step env now e st) = written st
  ∧ writableEnded (step env now e st) = true.
Proof.
  intros Hend. destruct e as [[msg|ev|mdl|r|m|code|txt]| | |result|m]; cbn [step].
  - destruct (on_message_fields now msg st) as (_ & _ & _ & _ & _ & _ & _ & -> & ->).
    done.
  - unfold on_content_delta. by destruct (truthy_str _).
  - done.
  - unfold on_result.
    destruct (with_progress_fields (Progress.cleanup now) (set_isComplete true st))
      as (_ & _ & _ & _ & _ & _ & _ & _ & H9 & H10).
    simpl in H9, H10. rewrite H10, Hend. simpl. by rewrite H9, H10.
  - unfold on_error.
    destruct (with_progress_fields (Progress.cleanup now) st)
      as (_ & _ & _ & _ & _ & _ & _ & _ & H9 & H10).
    set (st1 := with_progress (Progress.cleanup now) st) in *.
    set (st2 := if includes "timed out" m then _ else st1).
    assert (written st2 = written st ∧ writableEnded st2 = true) as [W1 W2].
    { subst st2. destruct (includes "timed out" m); [|by rewrite H9, H10].
      destruct (notifyTelegram_fields env ("⚠️ 任務超時被終止：" +:+ m)%string st1)
        as (_ & _ & _ & _ & _ & _ & _ & -> & ->). by rewrite H9, H10. }
    by rewrite W2.
  - unfold on_close. by rewrite Hend.
  - done.
  - unfold on_res_close. destruct (negb (isComplete st)); [|done].
    destruct (with_progress_fields (Progress.cleanup now) (set_killed true st))
      as (_ & _ & _ & _ & _ & _ & _ & _ & -> & ->). done.
  - destruct (with_progress_fields (Progress.timer_callback now) st)
      as (_ & _ & _ & _ & _ & _ & _ & _ & -> & ->). done.
  - destruct (with_progress_fields
                (λ p, (Progress.sendMessage_resolved result p, [])) st)
      as (_ & _ & _ & _ & _ & _ & _ & _ & -> & ->). done.
  - done.
Qed.

(** What an event does to an open response that has only the initial
    comment. *)
Lemma step_transcript env now e st :
  transcript env (writableEnded st) (written st) →
  transcript env (writableEnded (step env now e st)) (written (step env now e st)).
Proof.
  intros Ht. destruct (writableEnded st) eqn:Hend.
  { destruct (step_after_end env now e st Hend) as [-> ->]. done. }
  assert (written st = [sse_ok]) as Hw by (by inversion Ht).
  clear Ht.
  destruct e as [[msg|ev|mdl|r|m|code|txt]| | |result|m]; cbn [step].
  - destruct (on_message_fields now msg st) as (_ & _ & _ & _ & _ & _ & _ & -> & ->).
    rewrite Hend, Hw; apply transcript_open.
  - unfold on_content_delta. destruct (truthy_str _); simpl; rewrite Hend, Hw; apply transcript_open.
  - simpl. rewrite Hend, Hw; apply transcript_open.
  - unfold on_result.
    destruct (with_progress_fields (Progress.cleanup now) (set_isComplete true st))
      as (_ & _ & _ & _ & _ & H6 & _ & H8 & H9 & H10).
    set (st1 := with_progress (Progress.cleanup now) (set_isComplete true st)) in *.
    simpl in H6, H8, H9, H10. rewrite H10, Hend. simpl.
    destruct (write_buffer_fields env now true (turnBuffer st1) st1)
      as (W1 & _ & _ & _ & _ & _ & W7 & _).
    rewrite W1, W7, H9, Hw, H6. simpl. rewrite <- app_assoc. simpl.
    apply transcript_result.
  - unfold on_error.
    destruct (with_progress_fields (Progress.cleanup now) st)
      as (_ & _ & _ & _ & _ & _ & _ & _ & H9 & H10).
    set (st1 := with_progress (Progress.cleanup now) st) in *.
    set (st2 := if includes "timed out" m then _ else st1).
    assert (written st2 = [sse_ok] ∧ writableEnded st2 = false) as [W1 W2].
    { subst st2. destruct (includes "timed out" m); [|by rewrite H9, H10, Hw, Hend].
      destruct (notifyTelegram_fields env ("⚠️ 任務超時被終止：" +:+ m)%string st1)
        as (_ & _ & _ & _ & _ & _ & _ & -> & ->). by rewrite H9, H10, Hw, Hend. }
    rewrite W2. simpl. rewrite W1. apply transcript_error.
  - unfold on_close. rewrite Hend. simpl.
    destruct (negb (bool_decide (code = Some 0)) && negb (isComplete st)) eqn:Hc;
      simpl; rewrite Hw; simpl.
    + apply transcript_exit. apply andb_true_iff in Hc as [Hc _].
      apply negb_true_iff, bool_decide_eq_false in Hc. done.
    + apply transcript_closed.
  - simpl. rewrite Hend, Hw; apply transcript_open.
  - unfold on_res_close. destruct (negb (isComplete st)); [|rewrite Hend, Hw; apply transcript_open].
    destruct (with_progress_fields (Progress.cleanup now) (set_killed true st))
      as (_ & _ & _ & _ & _ & _ & _ & _ & -> & ->). simpl. rewrite Hend, Hw; apply transcript_open.
  - destruct (with_progress_fields (Progress.timer_callback now) st)
      as (_ & _ & _ & _ & _ & _ & _ & _ & -> & ->). rewrite Hend, Hw; apply transcript_open.
  - destruct (with_progress_fields
                (λ p, (Progress.sendMessage_resolved result p, [])) st)
      as (_ & _ & _ & _ & _ & _ & _ & _ & -> & ->). rewrite Hend, Hw; apply transcript_open.
  - simpl. rewrite Hend, Hw; apply transcript_open.
Qed.

End streaming_runs.

(** X15.  The streaming handler touches the progress reporter only by
    calling its methods: after any events, the reporter and the log of
    Telegram calls are those of a reporter created for the configured
    chat and driven by [report] for each named tool-use block, [cleanup]
    at [result], at [error] and at a disconnect before the result, and its
    own timer and send events. *)
Theorem handler_drives_reporter_by_its_methods
    (env : Streaming.Env) (evs : list (Z * Event)) :
  let st := Streaming.run env evs (Streaming.init env) in
  let alone := Progress.run (reporter_trace false evs)
                            (Progress.new (reporter_chat env)) in
  Streaming.progress st = alone.1 ∧ Streaming.telegram st = alone.2.
Proof.
  intros st alone. subst st alone.
  destruct (run_fields env evs (Streaming.init env)) as (H1 & H2 & _).
  rewrite H1, H2. done.
Qed.

(** X16.  Without [TELEGRAM_NOTIFY_ID] nothing is sent to Telegram,
    whatever happens: no progress message is sent, edited or deleted, and
    no timeout notice is handed to the helper. *)
Theorem no_telegram_without_destination
    (env : Streaming.Env) (evs : list (Z * Event)) :
  truthy_str (Streaming.TELEGRAM_NOTIFY_ID env) = false →
  let st := Streaming.run env evs (Streaming.init env) in
  Streaming.telegram st = [] ∧ Streaming.notified st = [].
Proof.
  intros Henv st. subst st.
  destruct (run_fields env evs (Streaming.init env)) as (_ & H2 & _ & _ & _ & H6).
  rewrite H2, H6, Henv. simpl. split; [|done].
  apply disabled_run. split; simpl; [by rewrite Henv | done].
Qed.

Lemma no_telegram_without_destination_timeout :
  let env := {| Streaming.requestId := "req"; Streaming.TELEGRAM_NOTIFY_ID := None |} in
  let tool_call :=
    {| Cli.msg_type := "stream_event";
       Cli.event := Some {| Cli.event_type := "content_block_start";
                            Cli.content_block :=
                              Some {| Cli.block_type := "tool_use";
                                      Cli.block_name := Some "Bash"%string |};
                            Cli.delta := None |} |} in
  let st := Streaming.run env [ (10000, Sub (Cli.on_message tool_call));
                                (20000, Sub (Cli.on_error "Request timed out")) ]
                          (Streaming.init env) in
  Streaming.telegram st = [] ∧ Streaming.notified st = [].
Proof.
  intros env tool_call st.
  apply (no_telegram_without_destination env); reflexivity.
Defined.

(** X17.  The subprocess is killed by the handler exactly when the
    response stream closes before any [result] has arrived; a close after
    the result kills nothing. *)
Theorem killed_iff_disconnect_before_result
    (env : Streaming.Env) (evs : list (Z * Event)) :
  Streaming.killed (Streaming.run env evs (Streaming.init env))
  = disconnect_before_result evs.
Proof.
  destruct (run_fields env evs (Streaming.init env)) as (_ & _ & H3 & _).
  rewrite H3. done.
Qed.

(** X18.  In both handlers, with [TELEGRAM_NOTIFY_ID] set, the notices
    handed to the helper are exactly one per [error] event whose message
    contains "timed out", in order, each the warning prefix followed by
    the message; other errors give none. *)
Theorem timeouts_are_notified_once_each
    (env : Streaming.Env) (evs : list (Z * Event)) :
  truthy_str (Streaming.TELEGRAM_NOTIFY_ID env) = true →
  Streaming.notified (Streaming.run env evs (Streaming.init env)) = timeout_notices evs
  ∧ NonStreaming.notified (NonStreaming.run env evs NonStreaming.init)
    = timeout_notices evs.
Proof.
  intros Henv. split.
  - destruct (run_fields env evs (Streaming.init env)) as (_ & _ & _ & _ & _ & H6).
    rewrite H6, Henv. done.
  - assert (∀ st, NonStreaming.notified (NonStreaming.run env evs st)
                  = NonStreaming.notified st ++ timeout_notices evs) as H.
    { induction evs as [|[now e] evs IH]; intros st; [simpl; by rewrite app_nil_r|].
      cbn [NonStreaming.run].
      rewrite IH, (timeout_notices_cons (now, e) evs), app_assoc. f_equal.
      assert (∀ status b x, NonStreaming.notified (NonStreaming.json status b x)
                            = NonStreaming.notified x) as Hjson.
      { intros status b x. unfold NonStreaming.json.
        by destruct (NonStreaming.sent x). }
      unfold timeout_notices.
      destruct e as [[msg|ev|mdl|r|m|code|txt]| | |result|m]; simpl;
        rewrite ?app_nil_r; try done.
      - unfold NonStreaming.on_error. rewrite Hjson.
        destruct (includes "timed out" m); simpl; [|by rewrite app_nil_r].
        unfold NonStreaming.notifyTelegram. by rewrite Henv.
      - unfold NonStreaming.on_close.
        destruct (NonStreaming.finalResult st); [by rewrite Hjson|].
        destruct (negb _); [by rewrite Hjson | done]. }
    by rewrite H.
Qed.

Lemma timeouts_are_notified_once_each_example :
  let env := {| Streaming.requestId := "req";
                Streaming.TELEGRAM_NOTIFY_ID := Some "42"%string |} in
  let evs := [ (1000, Sub (Cli.on_error "Request timed out after 600s"));
               (1001, Sub (Cli.on_close None)) ] in
  Streaming.notified (Streaming.run env evs (Streaming.init env))
  = ["⚠️ 任務超時被終止：Request timed out after 600s"%string].
Proof.
  intros env evs.
  destruct (timeouts_are_notified_once_each env evs) as [H _].
  - reflexivity.
  - rewrite H. vm_compute. reflexivity.
Defined.

(** X19.  The turn counter counts the [message_start] boundaries
    received, also those that arrive after the response is ended. *)
Theorem turnCount_counts_message_starts
    (env : Streaming.Env) (evs : list (Z * Event)) :
  Streaming.turnCount (Streaming.run env evs (Streaming.init env))
  = Z.of_nat (count_starts evs).
Proof.
  destruct (run_fields env evs (Streaming.init env)) as (_ & _ & _ & _ & H5 & _).
  rewrite H5. simpl. lia.
Qed.

(** X20.  Whatever events arrive, in whatever order, the SSE response is
    one of five: still open with only the initial comment; the buffered
    chunks, the closing chunk and [DONE] (after a result); an error
    payload with no [DONE] (after an [error] event); the exit error and
    [DONE] (after an abnormal exit with no result); or [DONE] alone.
    Nothing is written once it is ended, and at most one error payload is
    ever written. *)
Theorem sse_response_has_one_of_five_shapes
    (env : Streaming.Env) (evs : list (Z * Event)) :
  let st := Streaming.run env evs (Streaming.init env) in
  transcript env (Streaming.writableEnded st) (Streaming.written st)
  ∧ (length (filter (λ w, is_sse_error w = true) (Streaming.written st)) ≤ 1)%nat
  ∧ ∀ more, Streaming.writableEnded st = true →
            Streaming.written (Streaming.run env more st) = Streaming.written st.
Proof.
  intros st. subst st.
  assert (∀ l st, transcript env (Streaming.writableEnded st) (Streaming.written st) →
            transcript env (Streaming.writableEnded (Streaming.run env l st))
                       (Streaming.written (Streaming.run env l st))) as Hrun.
  { induction l as [|[now e] l IH]; intros st Ht; simpl; [done|].
    apply IH. by apply step_transcript. }
  assert (∀ l st, Streaming.writableEnded st = true →
            Streaming.written (Streaming.run env l st) = Streaming.written st
            ∧ Streaming.writableEnded (Streaming.run env l st) = true) as Hend.
  { induction l as [|[now e] l IH]; intros st He; simpl; [done|].
    destruct (step_after_end env now e st He) as [Hw He'].
    destruct (IH _ He') as [-> ->]. done. }
  pose proof (Hrun evs (Streaming.init env) (transcript_open env)) as Ht.
  split; [exact Ht|]. split; [|intros more He; by apply Hend].
  assert (∀ now model b buf,
            filter (λ w, is_sse_error w = true) (buffer_chunks env now model b buf) = [])
    as Hchunks.
  { intros now model b buf. revert b.
    induction buf as [|t buf IH]; intros b; simpl; [done|].
    rewrite filter_cons, decide_False by done. apply IH. }
  generalize dependent (Streaming.written (Streaming.run env evs (Streaming.init env))).
  generalize (Streaming.writableEnded (Streaming.run env evs (Streaming.init env))).
  intros b ws Ht.
  destruct Ht as [| now model buf | message | code Hcode |].
  - rewrite filter_cons, decide_False by done. simpl. lia.
  - rewrite filter_cons, decide_False by done.
    rewrite filter_app, Hchunks.
    rewrite !filter_cons, !decide_False by done. simpl. lia.
  - rewrite !filter_cons, decide_False by done.
    rewrite decide_True by done. simpl. lia.
  - rewrite !filter_cons, decide_False by done.
    rewrite decide_True by done. rewrite decide_False by done. simpl. lia.
  - rewrite !filter_cons, !decide_False by done. simpl. lia.
Qed.

(** X21.  What a [result] writes, chunk by chunk: for each buffered text
    of the last turn one chunk with that text, [finish_reason] null and
    the model named by the last [assistant] message as it stands (the
    default name when there was none), only the first of them with role
    "assistant"; then the closing chunk, whose model is the normalized
    name; then [DONE]. *)
Theorem result_writes_buffer_then_closing_chunk
    (env : Streaming.Env) (evs : list (Z * Event)) (now : Z) (r : Cli.ClaudeCliResult) :
  Forall (λ te, pre_result te.2 = true) evs →
  let buf := filter (λ t, nonempty t = true)
                    (delta_texts (after_boundary (count_starts evs) evs)) in
  let st := Streaming.run env (evs ++ [(now, Sub (Cli.on_result r))])
                          (Streaming.init env) in
  Streaming.written st
  = Streaming.sse_ok
    :: buffer_chunks env now (last_assistant evs) true buf
    ++ [ Streaming.sse_chunk
           (Adapter.createDoneChunk (Streaming.requestId env)
                                    (Some (last_assistant evs)) now);
         Streaming.sse_done ].
Proof.
  intros Hevs buf st. subst buf st.
  destruct (run_pre_result env evs Hevs) as (Hw & Hopen & Hbuf).
  destruct (run_fields env evs (Streaming.init env)) as (_ & _ & _ & Hmodel & _).
  rewrite run_app. cbn [Streaming.run Streaming.step].
  set (st := Streaming.run env evs (Streaming.init env)) in *.
  unfold Streaming.on_result.
  destruct (with_progress_fields (Progress.cleanup now) (Streaming.set_isComplete true st))
    as (_ & _ & _ & _ & _ & H6 & _ & H8 & H9 & H10).
  set (st1 := Streaming.with_progress (Progress.cleanup now)
                (Streaming.set_isComplete true st)) in *.
  simpl in H6, H8, H9, H10. rewrite H10, Hopen. simpl.
  destruct (write_buffer_fields env now true (Streaming.turnBuffer st1) st1)
    as (W1 & _ & _ & _ & _ & _ & W7 & _).
  rewrite W1, W7, H9, H8, H6, Hw, Hbuf, Hmodel. simpl.
  rewrite <- app_assoc. done.
Qed.

Lemma result_writes_buffer_then_closing_chunk_example :
  let evs := [ (1, message_start_event); (2, content_delta_event "Hel");
               (3, Sub (Cli.on_assistant "claude-opus-4-5-20250929"));
               (4, content_delta_event "lo") ] in
  let st := Streaming.run example_env (evs ++ [(5000, result_event "Hello")])
                          (Streaming.init example_env) in
  Streaming.written st
  = [ Streaming.sse_ok;
      Streaming.sse_chunk
        (Streaming.content_chunk example_env 5000 "claude-opus-4-5-20250929" true "Hel");
      Streaming.sse_chunk
        (Streaming.content_chunk example_env 5000 "claude-opus-4-5-20250929" false "lo");
      Streaming.sse_chunk
        (Adapter.createDoneChunk "req" (Some "claude-opus-4-5-20250929"%string) 5000);
      Streaming.sse_done ].
Proof.
  intros evs st. subst st. unfold result_event.
  rewrite (result_writes_buffer_then_closing_chunk example_env evs 5000).
  - vm_compute. reflexivity.
  - subst evs. repeat constructor.
Defined.

(** ** Non-streaming handler: which event answers *)

(** X22.  The JSON response is that of the first event that answers: an
    [error] event or a failure to start gives a 500 with its message; the
    process closing gives the 200 completion built from the last result
    received before it, or the "exited without response" 500 when there
    was none.  Results alone never answer, and nothing after the first
    answer changes it. *)
Theorem response_is_the_first_answer
    (env : Streaming.Env) (evs : list (Z * Event)) :
  NonStreaming.sent (NonStreaming.run env evs NonStreaming.init)
  = first_answer env None evs.
Proof.
  assert (∀ l st resp, NonStreaming.sent st = Some resp →
            NonStreaming.sent (NonStreaming.run env l st) = Some resp) as Hstands.
  { induction l as [|[now e] l IH]; intros st resp Hs; simpl; [done|].
    apply IH.
    assert (∀ status b x, NonStreaming.sent x = Some resp →
              NonStreaming.sent (NonStreaming.json status b x) = Some resp) as Hjson.
    { intros status b x Hx. unfold NonStreaming.json. by rewrite Hx. }
    destruct e as [[msg|ev|mdl|r|m|code|txt]| | |result|m]; simpl; try done.
    - unfold NonStreaming.on_error. apply Hjson.
      destruct (includes _ _); [|done].
      unfold NonStreaming.notifyTelegram. by destruct (negb _).
    - by rewrite on_close_sent, Hs.
    - by apply Hjson. }
  assert (∀ l st, NonStreaming.sent st = None →
            NonStreaming.sent (NonStreaming.run env l st)
            = first_answer env (NonStreaming.finalResult st) l) as Hfirst.
  { induction l as [|[now e] l IH]; intros st Hs; simpl; [done|].
    assert (∀ status b x, NonStreaming.sent x = None →
              NonStreaming.sent (NonStreaming.json status b x)
              = Some {| NonStreaming.status := status; NonStreaming.body := b |})
      as Hjson.
    { intros status b x Hx. unfold NonStreaming.json. by rewrite Hx. }
    destruct e as [[msg|ev|mdl|r|m|code|txt]| | |result|m]; simpl;
      try (by apply IH).
    - apply Hstands. unfold NonStreaming.on_error. apply Hjson.
      destruct (includes _ _); [|done].
      unfold NonStreaming.notifyTelegram. by destruct (negb _).
    - apply Hstands. rewrite on_close_sent, Hs.
      by destruct (NonStreaming.finalResult st).
    - apply Hstands. by apply Hjson. }
  by apply Hfirst.
Qed.

(** ** A request in flight and the session manager *)

(** X23.  The events of a request in flight never add or change a
    session: without a [resume_failed] signal the session manager is left
    as it was, and with one (or several) the only change is that the
    request's own conversation has been deleted, written to the file at
    most once. *)
Theorem request_events_only_invalidate_own_session
    (env : Streaming.Env) (evs : list (Z * Event)) (r : Routes.Request) :
  let s := Routes.store r in
  let s' := Routes.store (Routes.run env evs r) in
  (existsb (λ te, is_resume_failed te.2) evs = false → s' = s)
  ∧ (∀ k, Some k ≠ Routes.conversationId r →
          Session.sessions s' !! k = Session.sessions s !! k)
  ∧ (∀ k v, Session.sessions s' !! k = Some v → Session.sessions s !! k = Some v)
  ∧ (Session.written s' = Session.written s
     ∨ Session.written s' = Session.written s ++ [Session.sessions s']).
Proof.
  intros s s'. subst s s'. rewrite routes_run_store.
  destruct (existsb _ evs); [|by repeat split; try left].
  split; [intros H; discriminate H|].
  unfold Routes.on_resume_failed.
  destruct (truthy_str (Routes.conversationId r)) eqn:Hc;
    [|by repeat split; try left].
  destruct (Routes.conversationId r) as [cid|]; [|discriminate Hc]. simpl.
  split; [|split].
  - intros k Hk. unfold Session.delete.
    destruct (Session.sessions (Routes.store r) !! cid); simpl; [|done].
    apply lookup_delete_ne. congruence.
  - intros k v. apply delete_lookup.
  - unfold Session.delete.
    destruct (Session.sessions (Routes.store r) !! cid); simpl; [by right | by left].
Qed.
